(** * GitHub Portfolio Analyzer: a shallow embedding

    The repository is a React/TypeScript client ([services/api.ts],
    [Homepage], [Dashboard], [RepoDetail], [ErrorBoundary]) in front of a
    scoring back end.  Each TypeScript function is embedded as a Rocq
    function of the same name; effects (network requests, component state,
    navigation) are threaded explicitly.  The scoring engine of the back
    end is modelled from the specification.  The first part of the file
    holds the definitions, the second part the theorems about the
    specification's statements, the third part further properties of the
    components. *)

From Stdlib Require Import ZArith NArith QArith Qround Qpower List String Ascii Bool Lia.
From Stdlib Require Import DecimalString Lqa Floats.
Import ListNotations.

#[local] Set Warnings "-register-all".
Local Close Scope Q_scope.
Local Open Scope string_scope.

(* ===================================================================== *)
(** * Part I: definitions                                                 *)
(* ===================================================================== *)

(** ** The fragment of JavaScript the components rely on *)

Module JS.

(** Decimal rendering of integers, as in a template literal [`${n}`]. *)
Definition string_of_N (n : N) : string :=
  NilZero.string_of_uint (N.to_uint n).

Definition string_of_Z (z : Z) : string :=
  NilZero.string_of_int (Z.to_int z).

(** A value produced by [JSON.parse] / [response.json()].  Objects list
    their own properties (keys are distinct); numbers are the integers
    from [-2^53] to [2^53], which a double holds exactly and [ToString]
    renders digit by digit (a larger number of a JSON text is rounded to
    a double when parsed, and is printed with the shortest digits of that
    double). *)
Inductive json : Type :=
| JNull
| JBool (b : bool)
| JNum (n : Z)
| JStr (s : string)
| JArr (items : list json)
| JObj (fields : list (string * json)).

(** The result of a property read [v.k] or [v[k]]: a JSON value, a member
    inherited from [Object.prototype] (a function object, or the prototype
    itself for [__proto__]), or [undefined]. *)
Inductive value : Type :=
| VUndefined
| VJson (j : json)
| VInherited (name : string).

(** The property names every ordinary object inherits from
    [Object.prototype]. *)
Definition object_prototype_keys : list string :=
  [ "constructor"; "hasOwnProperty"; "isPrototypeOf"; "propertyIsEnumerable";
    "toLocaleString"; "toString"; "valueOf"; "__proto__";
    "__defineGetter__"; "__defineSetter__"; "__lookupGetter__";
    "__lookupSetter__" ].

Fixpoint own_property (fields : list (string * json)) (k : string) : option json :=
  match fields with
  | [] => None
  | (k', v) :: rest => if String.eqb k' k then Some v else own_property rest k
  end.

(** [o[k]] on an ordinary object whose own properties are [fields]:
    the own property if there is one, else what the prototype chain
    (here just [Object.prototype]) provides. *)
Definition get_property (fields : list (string * json)) (k : string) : value :=
  match own_property fields k with
  | Some v => VJson v
  | None =>
      if existsb (String.eqb k) object_prototype_keys
      then VInherited k
      else VUndefined
  end.

(** ECMAScript [ToBoolean]. *)
Definition json_truthy (j : json) : bool :=
  match j with
  | JNull => false
  | JBool b => b
  | JNum n => negb (n =? 0)%Z
  | JStr s => negb (String.eqb s "")
  | JArr _ | JObj _ => true
  end.

Definition truthy (v : value) : bool :=
  match v with
  | VUndefined => false
  | VJson j => json_truthy j
  | VInherited _ => true
  end.

(** [a || b] *)
Definition or_else (a b : value) : value :=
  if truthy a then a else b.

(** ECMAScript [ToString] on JSON values ([Array.prototype.join] renders
    [null] elements as the empty string). *)
Fixpoint ToString (j : json) : string :=
  match j with
  | JNull => "null"
  | JBool true => "true"
  | JBool false => "false"
  | JNum n => string_of_Z n
  | JStr s => s
  | JArr items =>
      (fix join (l : list json) : string :=
         match l with
         | [] => ""
         | x :: rest =>
             let sx := match x with JNull => "" | _ => ToString x end in
             match rest with
             | [] => sx
             | _ :: _ => sx ++ "," ++ join rest
             end
         end) items
  | JObj _ => "[object Object]"
  end.

(** *** Strings as sequences of UTF-16 code units

    [String.prototype.trim] is defined on code units, and its white space
    set reaches beyond ASCII, so the code that trims sees a string as the
    list of its code units. *)

Definition utf16 : Type := list N.

(** An ASCII literal as a JavaScript string. *)
Fixpoint lit (s : string) : utf16 :=
  match s with
  | EmptyString => []
  | String c rest => N_of_ascii c :: lit rest
  end.

(** ECMAScript [WhiteSpace] and [LineTerminator] code points (all of them
    lie in the Basic Multilingual Plane, so each is one code unit). *)
Definition is_white_space (c : N) : bool :=
  ((c =? 0x09) || (c =? 0x0A) || (c =? 0x0B) || (c =? 0x0C) || (c =? 0x0D)
   || (c =? 0x20) || (c =? 0xA0) || (c =? 0x1680)
   || ((0x2000 <=? c) && (c <=? 0x200A))
   || (c =? 0x2028) || (c =? 0x2029) || (c =? 0x202F) || (c =? 0x205F)
   || (c =? 0x3000) || (c =? 0xFEFF))%N.

Fixpoint trimStart (s : utf16) : utf16 :=
  match s with
  | [] => []
  | c :: rest => if is_white_space c then trimStart rest else s
  end.

Definition trimEnd (s : utf16) : utf16 := rev (trimStart (rev s)).

(** [s.trim()] *)
Definition trim (s : utf16) : utf16 := trimEnd (trimStart s).

(** [ToBoolean] of a string: the empty string is the only falsy one. *)
Definition utf16_truthy (s : utf16) : bool :=
  match s with [] => false | _ :: _ => true end.

End JS.

(** The five README quality strings the back end reports, lowest first. *)
Definition tiers : list string := ["none"; "minimal"; "basic"; "good"; "excellent"].

(** ** [services/api.ts]: the four API client operations *)

Module Api.
Import JS.

Inductive http_method : Type := GET | POST.

(** What [fetch] is called with.  [body] is the value handed to
    [JSON.stringify]. *)
Record Request : Type := mkRequest {
  url : string;
  method : http_method;
  headers : list (string * string);
  body : option json
}.

(** What the code reads of a [Response]: [ok], [status], and the outcome
    of [response.json()] ([None] when that promise rejects because the
    body is not JSON). *)
Record Response : Type := mkResponse {
  ok : bool;
  status : N;
  json_body : option json
}.

(** The values a rejected promise carries here. *)
Inductive exn : Type :=
| Error (message : string)        (* [new Error(message)] *)
| TypeErrorFetch                  (* [fetch] itself rejected *)
| TypeErrorNullProperty           (* property read on [null] *)
| SyntaxError.                    (* [response.json()] rejected *)

Inductive settled (A : Type) : Type :=
| Resolved (a : A)
| Rejected (e : exn).
Arguments Resolved {A} a.
Arguments Rejected {A} e.

(** The remote end: the answer to each request, [None] when the network
    fails. *)
Definition Network : Type := Request -> option Response.

(** An [async] computation: it reads the network, appends to the log of
    requests sent, and settles. *)
Definition Async (A : Type) : Type :=
  Network -> list Request -> settled A * list Request.

Definition ret {A} (a : A) : Async A :=
  fun _ log => (Resolved a, log).

Definition throw {A} (e : exn) : Async A :=
  fun _ log => (Rejected e, log).

Definition bind {A B} (c : Async A) (k : A -> Async B) : Async B :=
  fun net log =>
    match c net log with
    | (Resolved a, log') => k a net log'
    | (Rejected e, log') => (Rejected e, log')
    end.

(** [p.catch(handler)] *)
Definition catch {A} (c : Async A) (handler : exn -> Async A) : Async A :=
  fun net log =>
    match c net log with
    | (Resolved a, log') => (Resolved a, log')
    | (Rejected e, log') => handler e net log'
    end.

Notation "'await' x <- c ;; k" := (bind c (fun x => k))
  (at level 10, x name, c at level 99, k at level 200).

Definition fetch (req : Request) : Async Response :=
  fun net log =>
    (match net req with
     | Some r => Resolved r
     | None => Rejected TypeErrorFetch
     end, (log ++ [req])%list).

(** [response.json()] *)
Definition response_json (r : Response) : Async json :=
  fun _ log =>
    (match json_body r with
     | Some j => Resolved j
     | None => Rejected SyntaxError
     end, log).

(** [error.detail] *)
Definition detail_of (error : json) : Async value :=
  match error with
  | JNull => throw TypeErrorNullProperty
  | JObj fields => ret (get_property fields "detail")
  | JBool _ | JNum _ | JStr _ | JArr _ => ret VUndefined
  end.

(** [new Error(v)]: the message is [ToString v], empty for [undefined]. *)
Definition new_Error (v : value) : exn :=
  match v with
  | VUndefined => Error ""
  | VJson j => Error (ToString j)
  | VInherited name => Error ("function " ++ name ++ "() { [native code] }")
  end.

Section Client.

(** [import.meta.env.VITE_API_URL] *)
Variable VITE_API_URL : option string.

Definition API_BASE : string :=
  match VITE_API_URL with
  | Some u => if String.eqb u "" then "http://localhost:8000" else u
  | None => "http://localhost:8000"
  end.

Definition analyzeUser (username : string) : Async json :=
  await response <- fetch (mkRequest (API_BASE ++ "/analyze/" ++ username) GET [] None) ;;
  if negb (ok response) then
    (await error <- catch (response_json response)
                          (fun _ => ret (JObj [("detail", JStr "Unknown error")])) ;;
     await detail <- detail_of error ;;
     throw (new_Error (or_else detail
                         (VJson (JStr ("HTTP " ++ string_of_N (status response)))))))
  else response_json response.

Definition analyzeRepo (username repo : string) : Async json :=
  await response <- fetch (mkRequest (API_BASE ++ "/repo/" ++ username ++ "/" ++ repo)
                                     GET [] None) ;;
  if negb (ok response) then
    (await error <- catch (response_json response)
                          (fun _ => ret (JObj [("detail", JStr "Unknown error")])) ;;
     await detail <- detail_of error ;;
     throw (new_Error (or_else detail
                         (VJson (JStr ("HTTP " ++ string_of_N (status response)))))))
  else response_json response.

Definition enhanceREADME (content repoName : string) : Async json :=
  await response <- fetch (mkRequest (API_BASE ++ "/enhance/readme") POST
                             [("Content-Type", "application/json")]
                             (Some (JObj [("content", JStr content);
                                          ("repo_name", JStr repoName)]))) ;;
  if negb (ok response) then
    (await error <- catch (response_json response)
                          (fun _ => ret (JObj [("detail", JStr "Unknown error")])) ;;
     await detail <- detail_of error ;;
     throw (new_Error (or_else detail
                         (VJson (JStr ("HTTP " ++ string_of_N (status response)))))))
  else response_json response.

Definition enhancePortfolio (username : string) : Async json :=
  await response <- fetch (mkRequest (API_BASE ++ "/enhance/portfolio?username=" ++ username)
                                     POST [] None) ;;
  if negb (ok response) then
    (await error <- catch (response_json response)
                          (fun _ => ret (JObj [("detail", JStr "Unknown error")])) ;;
     await detail <- detail_of error ;;
     throw (new_Error (or_else detail
                         (VJson (JStr ("HTTP " ++ string_of_N (status response)))))))
  else response_json response.

(** One invocation of the client, and the request it sends. *)
Inductive call : Type :=
| AnalyzeUser (username : string)
| AnalyzeRepo (username repo : string)
| EnhanceREADME (content repoName : string)
| EnhancePortfolio (username : string).

Definition request_of (c : call) : Request :=
  match c with
  | AnalyzeUser u =>
      mkRequest (API_BASE ++ "/analyze/" ++ u) GET [] None
  | AnalyzeRepo u r =>
      mkRequest (API_BASE ++ "/repo/" ++ u ++ "/" ++ r) GET [] None
  | EnhanceREADME content repoName =>
      mkRequest (API_BASE ++ "/enhance/readme") POST
        [("Content-Type", "application/json")]
        (Some (JObj [("content", JStr content); ("repo_name", JStr repoName)]))
  | EnhancePortfolio u =>
      mkRequest (API_BASE ++ "/enhance/portfolio?username=" ++ u) POST [] None
  end.

Definition perform (c : call) : Async json :=
  match c with
  | AnalyzeUser u => analyzeUser u
  | AnalyzeRepo u r => analyzeRepo u r
  | EnhanceREADME content name => enhanceREADME content name
  | EnhancePortfolio u => enhancePortfolio u
  end.

End Client.

End Api.

(** ** [components/ErrorBoundary.tsx] *)

Module ErrorBoundary.

Record State : Type := mkState { hasError : bool }.

(** What [render] returns: the fallback markup or [this.props.children]. *)
Inductive rendered (A : Type) : Type :=
| FallbackUI
| ChildrenOf (children : A).
Arguments FallbackUI {A}.
Arguments ChildrenOf {A} children.

Definition constructor : State := {| hasError := false |}.

Definition getDerivedStateFromError : State := {| hasError := true |}.

Definition render {A} (children : A) (st : State) : rendered A :=
  if hasError st then FallbackUI else ChildrenOf children.

(** What can happen to a mounted boundary: a descendant throws while
    rendering (React then calls [getDerivedStateFromError] and
    [componentDidCatch]), the boundary is rendered again, or the
    "Reload Page" button of the fallback is clicked. *)
Inductive event : Type :=
| DescendantThrows
| Rerender
| ReloadClicked.

(** A mounted instance: its state and how many times [componentDidCatch]
    wrote to [console.error]. *)
Record instance : Type := mkInstance {
  state : State;
  reported : nat
}.

Definition mount : instance := {| state := constructor; reported := 0 |}.

(** One step of the component's life; [None] once
    [window.location.reload()] has discarded the page.  The reload button
    exists only inside the fallback. *)
Definition step (i : instance) (ev : event) : option instance :=
  match ev with
  | DescendantThrows =>
      Some {| state := getDerivedStateFromError; reported := S (reported i) |}
  | Rerender => Some i
  | ReloadClicked => if hasError (state i) then None else Some i
  end.

(** The outputs of [render] after each event of a trace, for as long as
    the instance lives. *)
Fixpoint renders {A} (children : A) (i : instance) (evs : list event)
  : list (rendered A) :=
  match evs with
  | [] => []
  | ev :: rest =>
      match step i ev with
      | Some i' => render children (state i') :: renders children i' rest
      | None => []
      end
  end.

Fixpoint run (i : instance) (evs : list event) : option instance :=
  match evs with
  | [] => Some i
  | ev :: rest =>
      match step i ev with
      | Some i' => run i' rest
      | None => None
      end
  end.

End ErrorBoundary.

(** ** [components/Homepage.tsx] *)

Module Homepage.
Import JS.

(** What submitting the form does: [e.preventDefault()] and, possibly,
    one call of [navigate]. *)
Record effects : Type := mkEffects {
  defaultPrevented : bool;
  navigated : option utf16
}.

Definition handleAnalyze (username : utf16) : effects :=
  {| defaultPrevented := true;
     navigated :=
       if utf16_truthy (trim username)
       then Some (lit "/dashboard/" ++ trim username)%list
       else None |}.

Definition handleExampleClick (exampleUsername : utf16) : effects :=
  {| defaultPrevented := false;
     navigated := Some (lit "/dashboard/" ++ exampleUsername)%list |}.

End Homepage.

(** ** [components/Dashboard.tsx] *)

Module Dashboard.
Import JS.

(** The five [useState] cells and the route parameter. *)
Record State : Type := mkState {
  username : option string;
  analysis : option json;
  enhancement : option json;
  loading : bool;
  error : option string;
  showEnhancement : bool
}.

Definition initial (username : option string) : State :=
  {| username := username; analysis := None; enhancement := None;
     loading := true; error := None; showEnhancement := false |}.

(** [!username] for the route parameter ([undefined] or a string). *)
Definition username_missing (u : option string) : bool :=
  match u with
  | None => true
  | Some s => String.eqb s ""
  end.

(** Truthiness of a nullable piece of state. *)
Definition nullable_truthy (o : option json) : bool :=
  match o with
  | None => false
  | Some j => json_truthy j
  end.

Fixpoint remove_nth {A} (i : nat) (l : list A) : list A :=
  match l, i with
  | [], _ => []
  | _ :: rest, O => rest
  | x :: rest, S i' => x :: remove_nth i' rest
  end.

(** The component together with what it has done to the outside: the
    requests sent, the promises its handlers are still awaiting, and the
    lines written with [console.error]. *)
Record World : Type := mkWorld {
  component : State;
  sent : list Api.Request;
  awaiting : list (Api.settled json);
  console : list string
}.

(** An awaited promise resolves, if it does, to truthy data (an object,
    as the type [EnhancedPortfolio] says). *)
Definition settles_truthy (o : Api.settled json) : Prop :=
  forall data, o = Api.Resolved data -> json_truthy data = true.

Definition mounted (username : option string) : World :=
  {| component := initial username; sent := []; awaiting := []; console := [] |}.

Section Handlers.

Variable VITE_API_URL : option string.
Variable net : Api.Network.

(** [handleLoadEnhancement] up to its [await]: the guard
    [if (!username || enhancement) return], then the call of
    [enhancePortfolio], which sends the request. *)
Definition handleLoadEnhancement (w : World) : World :=
  if username_missing (username (component w))
     || nullable_truthy (enhancement (component w))
  then w
  else
    let u := match username (component w) with Some u => u | None => "" end in
    let '(outcome, sent') := Api.enhancePortfolio VITE_API_URL u net (sent w) in
    {| component := component w; sent := sent';
       awaiting := (awaiting w ++ [outcome])%list; console := console w |}.

(** [handleLoadEnhancement] after its [await]: the body of [try] on a
    resolved promise, the [catch] clause on a rejected one. *)
Definition handleLoadEnhancement_resume (outcome : Api.settled json) (w : World) : World :=
  match outcome with
  | Api.Resolved data =>
      let st := component w in
      {| component :=
           {| username := username st; analysis := analysis st;
              enhancement := Some data;
              loading := loading st; error := error st;
              showEnhancement := true |};
         sent := sent w; awaiting := awaiting w; console := console w |}
  | Api.Rejected _ =>
      {| component := component w; sent := sent w; awaiting := awaiting w;
         console := (console w ++ ["Failed to load enhancement suggestions"])%list |}
  end.

(** The button "View/Hide Enhanced Plan" is clicked, or one of the
    awaited promises (the [i]-th, in any order) settles. *)
Inductive event : Type :=
| PlanButtonClicked
| PromiseSettles (i : nat).

Definition step (w : World) (ev : event) : World :=
  match ev with
  | PlanButtonClicked => handleLoadEnhancement w
  | PromiseSettles i =>
      match nth_error (awaiting w) i with
      | None => w
      | Some outcome =>
          handleLoadEnhancement_resume outcome
            {| component := component w; sent := sent w;
               awaiting := remove_nth i (awaiting w);
               console := console w |}
      end
  end.

Definition run (w : World) (evs : list event) : World :=
  fold_left step evs w.

End Handlers.


Definition colors : list (string * json) :=
  [ ("excellent", JStr "bg-green-100 text-green-800");
    ("good", JStr "bg-blue-100 text-blue-800");
    ("basic", JStr "bg-yellow-100 text-yellow-800");
    ("minimal", JStr "bg-orange-100 text-orange-800");
    ("none", JStr "bg-red-100 text-red-800") ].

Definition getQualityBadge (quality : string) : value :=
  or_else (get_property colors quality) (get_property colors "none").

End Dashboard.

(** ** [components/RepoDetail.tsx] *)

Module RepoDetail.
Import JS.

Definition colors : list (string * json) :=
  [ ("excellent", JStr "text-green-600 bg-green-100");
    ("good", JStr "text-blue-600 bg-blue-100");
    ("basic", JStr "text-yellow-600 bg-yellow-100");
    ("minimal", JStr "text-orange-600 bg-orange-100");
    ("none", JStr "text-red-600 bg-red-100") ].

Definition getQualityColor (quality : string) : value :=
  or_else (get_property colors quality) (get_property colors "none").

(** The numbers the language panel computes with: the IEEE 754 doubles
    that are not negative, each finite one by its exact value, [Infinity]
    and [NaN].  (Byte counts being natural numbers, no negative number and
    no negative zero is ever computed.) *)
Inductive number : Type :=
| Finite (q : Q)
| Infinity
| NaN.

Definition is_finite (x : number) : bool :=
  match x with
  | Finite _ => true
  | Infinity | NaN => false
  end.

Definition pow2 (e : Z) : Q := ((2 # 1) ^ e)%Q.

(** The binade of a positive number: the [k] with [2^k <= q < 2^(k+1)]. *)
Definition floor_log2 (q : Q) : Z :=
  let k := (Z.log2 (Qnum q) - Z.log2 (Zpos (Qden q)))%Z in
  if Qle_bool (pow2 k) q then k else (k - 1)%Z.

(** The integer nearest to [x], the even one of the two on a tie. *)
Definition round_half_even (x : Q) : Z :=
  let f := Qfloor x in
  match Qcompare (x - inject_Z f) (1 # 2) with
  | Lt => f
  | Gt => (f + 1)%Z
  | Eq => if Z.even f then f else (f + 1)%Z
  end.

(** The double an exact result [q >= 0] is rounded to (IEEE 754 binary64,
    round to nearest, ties to even): 53 significant bits, that is a
    multiple of [2^(k - 52)] in the binade [k]; multiples of [2^-1074]
    below [2^-1022]; [Infinity] when the rounded value reaches [2^1024]. *)
Definition round64 (q : Q) : number :=
  if Qle_bool q 0 then Finite 0
  else
    let e := Z.max (floor_log2 q - 52) (-1074) in
    let v := Qred (inject_Z (round_half_even (q / pow2 e)) * pow2 e) in
    if Qle_bool (pow2 1024) v then Infinity else Finite v.

(** A byte count as [response.json()] delivers it: the double nearest to
    the number in the JSON text. *)
Definition of_count (n : N) : number := round64 (inject_Z (Z.of_N n)).

(** [x + y], [x / y] and [x * y] on numbers that are not negative: the
    exact result rounded to a double, with the special cases of
    IEEE 754. *)
Definition add (x y : number) : number :=
  match x, y with
  | NaN, _ | _, NaN => NaN
  | Infinity, _ | _, Infinity => Infinity
  | Finite a, Finite b => round64 (a + b)
  end.

Definition divide (x y : number) : number :=
  match x, y with
  | NaN, _ | _, NaN => NaN
  | Infinity, Infinity => NaN
  | Infinity, Finite _ => Infinity
  | Finite _, Infinity => Finite 0
  | Finite a, Finite b =>
      if Qeq_bool b 0 then (if Qeq_bool a 0 then NaN else Infinity)
      else round64 (a / b)
  end.

Definition times (x y : number) : number :=
  match x, y with
  | NaN, _ | _, NaN => NaN
  | Infinity, Infinity => Infinity
  | Infinity, Finite b | Finite b, Infinity =>
      if Qeq_bool b 0 then NaN else Infinity
  | Finite a, Finite b => round64 (a * b)
  end.

(** [x.toFixed(1)] for [0 <= x < 1e21]: with [n] the integer for which
    [n / 10 - x] is as close to zero as possible (the larger one when
    there are two), the digits of [n] with a point before the last. *)
Definition toFixed1 (x : number) : string :=
  match x with
  | Finite q =>
      let n := Qfloor (q * (10 # 1) + (1 # 2)) in
      string_of_Z (n / 10) ++ "." ++ string_of_Z (n mod 10)
  | Infinity => "Infinity"
  | NaN => "NaN"
  end.

(** [repoData.languages], as [Object.entries] enumerates it: each
    language with the byte count of the JSON text. *)
Definition languages_t : Type := list (string * N).

(** [Object.values(languages).reduce((a, b) => a + b, 0)] *)
Definition totalLanguageBytes (languages : languages_t) : number :=
  fold_left add (map (fun entry => of_count (snd entry)) languages) (Finite 0).

(** [(bytes / totalLanguageBytes) * 100] *)
Definition percentage_value (languages : languages_t) (bytes : N) : number :=
  times (divide (of_count bytes) (totalLanguageBytes languages)) (Finite (100 # 1)).

(** One row of the panel: the language and the text of [percentage]. *)
Definition language_rows (languages : languages_t) : list (string * string) :=
  map (fun '(lang, bytes) => (lang, toFixed1 (percentage_value languages bytes)))
      languages.

(** The sum of the byte counts as natural numbers, without rounding. *)
Definition sum_of_counts (languages : languages_t) : N :=
  fold_right N.add 0%N (map snd languages).

(** The value of a binary64 float of the kernel, for comparison with
    [round64]. *)
Definition of_float (x : float) : number :=
  match Prim2SF x with
  | SpecFloat.S754_zero _ => Finite 0
  | SpecFloat.S754_infinity _ => Infinity
  | SpecFloat.S754_nan => NaN
  | SpecFloat.S754_finite _ m e => Finite (Qred (inject_Z (Zpos m) * pow2 e))
  end.

Definition same_number (x y : number) : bool :=
  match x, y with
  | Finite a, Finite b => Qeq_bool a b
  | Infinity, Infinity | NaN, NaN => true
  | _, _ => false
  end.

(** [(a / b) * 100] on byte counts below [2^62], computed by the kernel's
    binary64 arithmetic. *)
Definition float_percentage (a b : Z) : number :=
  of_float (PrimFloat.mul
              (PrimFloat.div (PrimFloat.of_uint63 (Uint63.of_Z a))
                             (PrimFloat.of_uint63 (Uint63.of_Z b)))
              (PrimFloat.of_uint63 (Uint63.of_Z 100))).

Definition model_percentage (a b : Z) : number :=
  times (divide (round64 (inject_Z a)) (round64 (inject_Z b))) (Finite (100 # 1)).

Fixpoint range (n : nat) (from : Z) : list Z :=
  match n with
  | O => []
  | S k => from :: range k (from + 1)%Z
  end.

End RepoDetail.

(** ** The scoring and enhancement engine

    The engine runs in the back end, whose sources are not part of the
    front-end tree embedded above.  Its definitions below are therefore
    written from the specification (sections 3, 4.1 to 4.4); whatever the
    specification leaves to the implementer (weights, cutoffs, the wording
    of templates) is a field of the record [rules], over which every
    theorem quantifies. *)

Module Engine.

(** Modelled from the spec: README text and headings, as the back end
    reads them, character by character. *)
Definition text : Type := list ascii.

Definition txt (s : string) : text := list_ascii_of_string s.

(** Modelled from the spec: the case folding behind the back end's
    case-insensitive match (4.1, step 1), on the ASCII letters. *)
Definition lower_char (c : ascii) : ascii :=
  let n := nat_of_ascii c in
  if (65 <=? n)%nat && (n <=? 90)%nat then ascii_of_nat (n + 32) else c.

Definition lower (s : text) : text := map lower_char s.

Fixpoint is_prefix (p s : text) : bool :=
  match p, s with
  | [], _ => true
  | _ :: _, [] => false
  | a :: p', b :: s' => Ascii.eqb a b && is_prefix p' s'
  end.

(** Modelled from the spec: the substring test of the back end's heading
    detection (4.1, step 1); [contains s needle] holds when [needle]
    occurs in [s]. *)
Fixpoint contains (s needle : text) : bool :=
  is_prefix needle s ||
  match s with
  | [] => false
  | _ :: s' => contains s' needle
  end.

(** Modelled from the spec: the README quality tiers the back end
    assigns (section 3), in their fixed order. *)
Inductive tier : Type := none | minimal | basic | good | excellent.

Definition rank (q : tier) : nat :=
  match q with
  | none => 0 | minimal => 1 | basic => 2 | good => 3 | excellent => 4
  end.

(** Modelled from the spec: the RepositoryMetadata record the back end
    scores (section 3); [last_update] and the evaluation instant are
    counted in days. *)
Record RepositoryMetadata : Type := mkMetadata {
  name : text;
  description : option text;
  languages : list (text * N);
  stars : N;
  forks : N;
  open_issues : N;
  last_update : Z;
  is_private : bool;
  readme : option text;
  url : text
}.

(** Modelled from the spec: the factors of the back end's health score
    (4.1, step 2), in the order of their weights. *)
Inductive factor : Type :=
| ReadmeTier | Description | Recency | Popularity | Issues.

Definition all_factors : list factor :=
  [ReadmeTier; Description; Recency; Popularity; Issues].

(** Modelled from the spec: the horizon buckets of the back end's planner
    (4.3) and its fixed mapping from factor to bucket. *)
Inductive horizon : Type := QuickWin | MediumTerm | LongTerm.

Definition horizon_of (f : factor) : horizon :=
  match f with
  | ReadmeTier | Description => QuickWin
  | Recency | Issues => MediumTerm
  | Popularity => LongTerm
  end.

Definition clamp (lo hi x : Z) : Z := Z.max lo (Z.min hi x).


(** Modelled from the spec: the RepositoryHealthReport the back end
    produces (section 3).  A suggestion is identified by the factor it is
    about; [factor_scores] keeps the per-factor scores the planner's
    simulation starts from. *)
Record RepositoryHealthReport : Type := mkHealth {
  health_score : Z;
  readme_quality : tier;
  missing_sections : list text;
  suggestions : list factor;
  factor_scores : factor -> Z
}.

(** Modelled from the spec: the PortfolioReport of the back end
    (section 3), with the fields the aggregation and the planner read. *)
Record PortfolioReport : Type := mkPortfolio {
  repositories : list RepositoryHealthReport;
  overall_score : Z;
  total_repos : N;
  total_stars : N
}.

(** Modelled from the spec: the EnhancementPlan of the back end
    (section 3); an opportunity is identified by its factor. *)
Record EnhancementPlan : Type := mkPlan {
  current_score : Z;
  potential_score : Z;
  quick_wins : list factor;
  medium_term : list factor;
  long_term : list factor
}.

(** Modelled from the spec: the EnhancedReadme of the back end's README
    generator (section 3). *)
Record EnhancedReadme : Type := mkEnhanced {
  enhanced_readme : text;
  improvements : list text
}.

(** Modelled from the spec: the design choices the specification leaves
    to the back end's implementer (section 9): the catalog of expected
    section headings in canonical order, the minimum length (in
    characters) and the section counts that separate the tiers, the
    weight, scale and "good" cutoff of every factor, the profile-level
    bonus, and the placeholder body of a synthesized section (from its
    heading and the repository name). *)
Record rules : Type := mkRules {
  catalog : list text;
  min_length : nat;
  min_sections : nat;
  most_sections : nat;
  weight : factor -> Z;
  good_cutoff : factor -> Z;
  tier_points : tier -> Z;
  description_points : bool -> Z;
  recency_points : Z -> Z;
  popularity_points : N -> N -> Z;
  issue_points : N -> Z -> Z;
  profile_bonus : N -> N -> Z;
  template : text -> text -> text
}.

Section Rules.

Variable R : rules.

(** Modelled from the spec: heading detection of the back end's README
    analysis, a case-insensitive substring match (4.1, step 1). *)
Definition recognized (content heading : text) : bool :=
  contains (lower content) (lower heading).

(** Modelled from the spec: the back end treats empty README content like
    an absent README (4.1, edge cases). *)
Definition content_of (readme : option text) : option text :=
  match readme with
  | Some (c :: rest) => Some (c :: rest)
  | Some [] | None => None
  end.

(** Modelled from the spec: the recognized sections of a README, the
    catalog headings found in it (4.1, step 1). *)
Definition recognized_sections (readme : option text) : list text :=
  match content_of readme with
  | Some content => List.filter (recognized content) (catalog R)
  | None => []
  end.

(** Modelled from the spec: missing-section detection of the back end,
    the catalog minus the headings found (4.1, step 1). *)
Definition find_missing_sections (readme : option text) : list text :=
  match content_of readme with
  | Some content => List.filter (fun h => negb (recognized content h)) (catalog R)
  | None => catalog R
  end.


(** Modelled from the spec: the back end's README tier classification, in
    the fixed order of 4.1, step 1: absent, below the minimum
    length/structure threshold (shorter than the minimum length, or with
    fewer recognized sections than the minimum), some sections, most
    sections, all sections. *)
Definition classify (readme : option text) : tier :=
  match content_of readme with
  | None => none
  | Some content =>
      let k := List.length (recognized_sections readme) in
      if (List.length content <? min_length R)%nat || (k <? min_sections R)%nat
      then minimal
      else if (k <? most_sections R)%nat then basic
      else if (k <? List.length (catalog R))%nat then good
      else excellent
  end.

(** The record [m] with another instant of last update. *)
Definition updated_at (m : RepositoryMetadata) (t : Z) : RepositoryMetadata :=
  {| name := name m; description := description m; languages := languages m;
     stars := stars m; forks := forks m; open_issues := open_issues m;
     last_update := t; is_private := is_private m;
     readme := readme m; url := url m |}.

Definition has_description (m : RepositoryMetadata) : bool :=
  match description m with
  | Some (_ :: _) => true
  | _ => false
  end.

(** Modelled from the spec: the per-factor scores of the back end's
    health scorer (4.1, step 2); recency is the time elapsed between the
    last update and the evaluation instant [now]. *)
Definition score_factor (now : Z) (m : RepositoryMetadata) (f : factor) : Z :=
  match f with
  | ReadmeTier => tier_points R (classify (readme m))
  | Description => description_points R (has_description m)
  | Recency => recency_points R (now - last_update m)
  | Popularity => popularity_points R (stars m) (forks m)
  | Issues => issue_points R (open_issues m) (now - last_update m)
  end.

Definition weighted_sum (scores : factor -> Z) : Z :=
  fold_right (fun f acc => weight R f * scores f + acc)%Z 0%Z all_factors.

(** Modelled from the spec: the back end's health score, the weighted sum
    of the factor scores clamped to [0, 100] (4.1, step 2). *)
Definition score_of (scores : factor -> Z) : Z :=
  clamp 0 100 (weighted_sum scores).

(** Modelled from the spec: suggestion generation of the back end, one
    suggestion per factor below its "good" cutoff, highest weight first
    (4.1, step 3). *)
Definition suggest (scores : factor -> Z) : list factor :=
  List.filter (fun f => (scores f <? good_cutoff R f)%Z) all_factors.

(** Modelled from the spec: the Repository Health Scorer of the back end
    (4.1). *)
Definition score_repository (now : Z) (m : RepositoryMetadata)
  : RepositoryHealthReport :=
  let scores := score_factor now m in
  {| health_score := score_of scores;
     readme_quality := classify (readme m);
     missing_sections := find_missing_sections (readme m);
     suggestions := suggest scores;
     factor_scores := scores |}.

Definition sum_Z (l : list Z) : Z := fold_right Z.add 0%Z l.

(** Modelled from the spec: the unweighted mean of the health scores,
    which 4.2 names as a conforming choice for the back end's average. *)
Definition mean (l : list Z) : Z :=
  match l with
  | [] => 0%Z
  | _ :: _ => (sum_Z l / Z.of_nat (List.length l))%Z
  end.

(** Modelled from the spec: the back end's overall score, the mean health
    score plus the profile-level bonuses, bounded to [0, 100] (4.2). *)
Definition aggregate_score (scores : list Z) (repos stars_total : N) : Z :=
  clamp 0 100 (mean scores + profile_bonus R repos stars_total).

(** Modelled from the spec: the Portfolio Aggregator of the back end
    (4.2). *)
Definition aggregate (reports : list RepositoryHealthReport)
  (repos stars_total : N) : PortfolioReport :=
  {| repositories := reports;
     overall_score := aggregate_score (map health_score reports) repos stars_total;
     total_repos := repos;
     total_stars := stars_total |}.

(** Modelled from the spec: the back end's profile analysis, scoring
    every repository and aggregating (section 6, first contract). *)
Definition analyze_portfolio (now : Z) (ms : list RepositoryMetadata)
  (repos stars_total : N) : PortfolioReport :=
  aggregate (map (score_repository now) ms) repos stars_total.

(** Modelled from the spec: the invariant of a PortfolioReport the back
    end hands to the planner (section 3): every health score is the
    clamped weighted sum of the factor scores reported with it, and the
    overall score is the aggregate of the health scores and the profile
    counts. *)
Definition coherent (p : PortfolioReport) : Prop :=
  Forall (fun r => health_score r = score_of (factor_scores r)) (repositories p)
  /\ overall_score p =
       aggregate_score (map health_score (repositories p))
         (total_repos p) (total_stars p).

(** Modelled from the spec: the planner's simulation in the back end, a
    factor below its "good" cutoff is brought up to the cutoff and the
    others are kept (4.3). *)
Definition simulate (scores : factor -> Z) (f : factor) : Z :=
  if (scores f <? good_cutoff R f)%Z then good_cutoff R f else scores f.

Definition same_horizon (a b : horizon) : bool :=
  match a, b with
  | QuickWin, QuickWin | MediumTerm, MediumTerm | LongTerm, LongTerm => true
  | _, _ => false
  end.

(** Modelled from the spec: the planner's bucketing of improvement
    opportunities by horizon (4.3). *)
Definition opportunities (p : PortfolioReport) (h : horizon) : list factor :=
  List.filter (fun f => same_horizon (horizon_of f) h)
    (List.concat (map suggestions (repositories p))).

(** Modelled from the spec: the Enhancement Planner of the back end (4.3):
    the current score is the report's, the potential score re-runs the
    aggregation on the simulated factor scores. *)
Definition plan (p : PortfolioReport) : EnhancementPlan :=
  {| current_score := overall_score p;
     potential_score :=
       aggregate_score
         (map (fun r => score_of (simulate (factor_scores r))) (repositories p))
         (total_repos p) (total_stars p);
     quick_wins := opportunities p QuickWin;
     medium_term := opportunities p MediumTerm;
     long_term := opportunities p LongTerm |}.

Definition blank_line : text := txt (String "010" (String "010" "")).

(** Modelled from the spec: a section synthesized by the back end's README
    generator, its heading line followed by the placeholder body (4.4). *)
Definition synthesize (repo_name heading : text) : text :=
  (txt "## " ++ heading ++ blank_line ++ template R heading repo_name ++ blank_line)%list.

(** Modelled from the spec: the README Template Generator of the back end
    (4.4): the existing text is kept, the missing sections are appended in
    catalog order, and the improvements name exactly the synthesized
    sections. *)
Definition generate (existing repo_name : text) : EnhancedReadme :=
  let missing := find_missing_sections (Some existing) in
  {| enhanced_readme := (existing ++ List.concat (map (synthesize repo_name) missing))%list;
     improvements := map (fun h => (txt "Added " ++ h ++ txt " section")%list) missing |}.

End Rules.

(** Modelled from the spec: the six canonical sections of the back end's
    README generator (4.4). *)
Definition canonical_catalog : list text :=
  [ txt "Description"; txt "Features"; txt "Installation"; txt "Usage";
    txt "Contributing"; txt "License" ].

(** Modelled from the spec: one admissible choice of the back end's
    rules (with the six-month recency cutoff that 4.1 gives as an
    example), used to run the engine on examples. *)
Definition reference_rules : rules :=
  {| catalog := canonical_catalog;
     min_length := 50;
     min_sections := 1;
     most_sections := 4;
     weight := fun f =>
       match f with
       | ReadmeTier => 10 | Description => 10
       | Recency => 5 | Popularity => 5 | Issues => 5
       end%Z;
     good_cutoff := fun f =>
       match f with
       | ReadmeTier => 3 | Description => 1
       | Recency => 3 | Popularity => 2 | Issues => 2
       end%Z;
     tier_points := fun q => Z.of_nat (rank q);
     description_points := fun present => if present then 1%Z else 0%Z;
     recency_points := fun elapsed =>
       (if elapsed <=? 30 then 4 else if elapsed <=? 182 then 3
        else if elapsed <=? 365 then 2 else if elapsed <=? 730 then 1 else 0)%Z;
     popularity_points := fun s f =>
       if (100 <=? s + f)%N then 4%Z else if (10 <=? s + f)%N then 2%Z
       else if (1 <=? s + f)%N then 1%Z else 0%Z;
     issue_points := fun issues _ =>
       if (issues <=? 5)%N then 2%Z else if (issues <=? 20)%N then 1%Z else 0%Z;
     profile_bonus := fun repos stars_total =>
       ((if (5 <=? repos)%N then 5 else 0) + (if (50 <=? stars_total)%N then 5 else 0))%Z;
     template := fun heading repo_name =>
       (txt "Describe " ++ heading ++ txt " for " ++ repo_name ++ txt ".")%list |}.

End Engine.

(** ** Traces of the error boundary *)

Module BoundaryTrace.
Import ErrorBoundary.

Definition is_throw (ev : event) : bool :=
  match ev with
  | DescendantThrows => true
  | Rerender | ReloadClicked => false
  end.

(** How many times a descendant threw during a trace. *)
Definition throws (evs : list event) : nat :=
  List.length (List.filter is_throw evs).

End BoundaryTrace.

(** ** [components/Dashboard.tsx]: loading the analysis, and what is shown *)

Module DashboardPage.
Import JS Dashboard.

(** The dashboard and the promises of [analyzeUser] that runs of
    [fetchAnalysis] are awaiting. *)
Record Page : Type := mkPage {
  world : World;
  loads : list (Api.settled json)
}.

Definition with_component (w : World) (st : State) : World :=
  {| component := st; sent := sent w; awaiting := awaiting w; console := console w |}.

Definition failure_message : string :=
  "Failed to analyze user. Please check the username and try again.".

(** Which of its three returns the component reaches: the spinner, the
    "Analysis Failed" card with [error] in it, or the markup of the
    dashboard proper, built from [analysis] and, when
    [showEnhancement && enhancement] holds, from the plan.  Building that
    markup reads the fields of [analysis] ([analysis.strengths.map] and
    the like) and throws, into the ErrorBoundary, when the body the server
    sent lacks them: [PortfolioMarkup] says that the third return is
    reached with these values, not that its markup is completed. *)
Inductive screen : Type :=
| Spinner
| AnalysisFailed (message : option string)
| PortfolioMarkup (analysis : json) (panel : option json).

(** Truthiness of [error], a string or [null]. *)
Definition error_truthy (e : option string) : bool :=
  match e with
  | None => false
  | Some s => negb (String.eqb s "")
  end.

Definition render (st : State) : screen :=
  if loading st then Spinner
  else
    match analysis st with
    | Some a =>
        if error_truthy (error st) || negb (json_truthy a)
        then AnalysisFailed (error st)
        else PortfolioMarkup a
               (if showEnhancement st && nullable_truthy (enhancement st)
                then enhancement st else None)
    | None => AnalysisFailed (error st)
    end.

Section Effects.

Variable VITE_API_URL : option string.
Variable net : Api.Network.

(** What stays true of the enhancement plan of a dashboard mounted for
    the user [mounted_for]: the awaited promises and the requests sent are
    those of [enhancePortfolio] for that user, a plan held is what such a
    promise resolved to, and the panel is on only with a plan. *)
Definition plan_invariant (mounted_for : option string) (w : World) : Prop :=
  username (component w) = mounted_for
  /\ (forall u, mounted_for = Some u ->
       Forall (fun o => o = fst (Api.enhancePortfolio VITE_API_URL u net [])) (awaiting w)
       /\ Forall (fun rq => rq = Api.request_of VITE_API_URL (Api.EnhancePortfolio u))
                 (sent w)
       /\ (forall d, enhancement (component w) = Some d ->
              fst (Api.enhancePortfolio VITE_API_URL u net []) = Api.Resolved d))
  /\ (username_missing mounted_for = true ->
       sent w = [] /\ awaiting w = [] /\ enhancement (component w) = None)
  /\ (showEnhancement (component w) = true ->
       exists d, enhancement (component w) = Some d).

(** [fetchAnalysis] up to its [await]: the guard [if (!username) return],
    [setLoading(true)], [setError(null)], and the call of [analyzeUser]. *)
Definition fetchAnalysis (p : Page) : Page :=
  let st := component (world p) in
  if username_missing (username st) then p
  else
    let u := match username st with Some u => u | None => "" end in
    let '(outcome, sent') := Api.analyzeUser VITE_API_URL u net (sent (world p)) in
    {| world :=
         {| component :=
              {| username := username st; analysis := analysis st;
                 enhancement := enhancement st;
                 loading := true; error := None;
                 showEnhancement := showEnhancement st |};
            sent := sent'; awaiting := awaiting (world p);
            console := console (world p) |};
       loads := (loads p ++ [outcome])%list |}.

(** [fetchAnalysis] after its [await]: [setAnalysis(data)] in [try],
    [setError(...)] in [catch], [setLoading(false)] in [finally]. *)
Definition fetchAnalysis_resume (outcome : Api.settled json) (p : Page) : Page :=
  let st := component (world p) in
  match outcome with
  | Api.Resolved data =>
      {| world :=
           with_component (world p)
             {| username := username st; analysis := Some data;
                enhancement := enhancement st;
                loading := false; error := error st;
                showEnhancement := showEnhancement st |};
         loads := loads p |}
  | Api.Rejected _ =>
      {| world :=
           with_component (world p)
             {| username := username st; analysis := analysis st;
                enhancement := enhancement st;
                loading := false; error := Some failure_message;
                showEnhancement := showEnhancement st |};
         loads := loads p |}
  end.

(** Whether the dependency [username] of the effect is unchanged. *)
Definition same_username (a b : option string) : bool :=
  match a, b with
  | None, None => true
  | Some x, Some y => String.eqb x y
  | _, _ => false
  end.

(** The route parameter changes, the [i]-th awaited promise of
    [analyzeUser] settles, or something happens to the enhancement plan
    (a click on its button, one of its promises settling).  The effect
    [useEffect(..., [username])] runs [fetchAnalysis] after the first
    render and after every render in which [username] differs from the
    one of the previous render; the component and its state stay. *)
Inductive event : Type :=
| RouteChanged (username : option string)
| AnalysisSettles (i : nat)
| Plan (ev : Dashboard.event).

Definition step (p : Page) (ev : event) : Page :=
  match ev with
  | RouteChanged u =>
      let st := component (world p) in
      if same_username (username st) u then p
      else
        fetchAnalysis
          {| world :=
               with_component (world p)
                 {| username := u; analysis := analysis st;
                    enhancement := enhancement st;
                    loading := loading st; error := error st;
                    showEnhancement := showEnhancement st |};
             loads := loads p |}
  | AnalysisSettles i =>
      match nth_error (loads p) i with
      | None => p
      | Some outcome =>
          fetchAnalysis_resume outcome
            {| world := world p; loads := remove_nth i (loads p) |}
      end
  | Plan ev =>
      {| world := Dashboard.step VITE_API_URL net (world p) ev; loads := loads p |}
  end.

Definition run (p : Page) (evs : list event) : Page :=
  fold_left step evs p.

Definition is_route_change (ev : event) : bool :=
  match ev with
  | RouteChanged _ => true
  | AnalysisSettles _ | Plan _ => false
  end.

(** The component after its first render and the first run of the effect. *)
Definition mount (username : option string) : Page :=
  fetchAnalysis {| world := mounted username; loads := [] |}.

End Effects.


End DashboardPage.

(** ** [components/RepoDetail.tsx]: loading, enhancing and copying *)

Module RepoPage.
Import JS.

(** [j.k] for a value [j] that is not [null] and a key [k] that no
    built-in prototype defines (the field names of the interfaces in
    [api.ts] are such keys). *)
Definition member (j : json) (k : string) : value :=
  match j with
  | JObj fields => get_property fields k
  | JNull | JBool _ | JNum _ | JStr _ | JArr _ => VUndefined
  end.

(** One property of the object literal given to [JSON.stringify], which
    leaves out a property whose value is [undefined] or a function. *)
Definition stringify_field (k : string) (v : value) : list (string * json) :=
  match v with
  | VJson j => [(k, j)]
  | VUndefined | VInherited _ => []
  end.

(** The request [enhanceREADME(content, repoName)] sends when its
    arguments are the values the component read off [repoData]. *)
Definition enhance_request (VITE_API_URL : option string) (content repoName : value)
  : Api.Request :=
  Api.mkRequest (Api.API_BASE VITE_API_URL ++ "/enhance/readme") Api.POST
    [("Content-Type", "application/json")]
    (Some (JObj (stringify_field "content" content
                 ++ stringify_field "repo_name" repoName)%list)).

(** [enhanceREADME] of [api.ts], called with such values. *)
Definition enhanceREADME (VITE_API_URL : option string) (content repoName : value)
  : Api.Async json :=
  Api.bind (Api.fetch (enhance_request VITE_API_URL content repoName))
    (fun response =>
       if negb (Api.ok response) then
         Api.bind (Api.catch (Api.response_json response)
                     (fun _ => Api.ret (JObj [("detail", JStr "Unknown error")])))
           (fun error =>
              Api.bind (Api.detail_of error)
                (fun detail =>
                   Api.throw
                     (Api.new_Error
                        (or_else detail
                           (VJson (JStr ("HTTP " ++ string_of_N (Api.status response))))))))
       else Api.response_json response).

(** The seven [useState] cells and the two route parameters. *)
Record State : Type := mkState {
  username : option string;
  repo : option string;
  repoData : option json;
  loading : bool;
  error : option string;
  showEnhancedREADME : bool;
  enhancedData : option json;
  enhancing : bool;
  copied : bool
}.

Definition initial (username repo : option string) : State :=
  {| username := username; repo := repo; repoData := None; loading := true;
     error := None; showEnhancedREADME := false; enhancedData := None;
     enhancing := false; copied := false |}.

(** The component and its surroundings: the requests sent, the promises
    of [analyzeRepo] and of [enhanceREADME] still awaited, what was handed
    to [navigator.clipboard.writeText], the number of timeouts set with
    [setTimeout] that have not fired yet, and the lines of
    [console.error]. *)
Record World : Type := mkWorld {
  component : State;
  sent : list Api.Request;
  loads : list (Api.settled json);
  enhancements : list (Api.settled json);
  clipboard : list value;
  timers : nat;
  console : list string
}.

Definition with_component (w : World) (st : State) : World :=
  {| component := st; sent := sent w; loads := loads w;
     enhancements := enhancements w; clipboard := clipboard w;
     timers := timers w; console := console w |}.

Definition set_load (st : State) (data : option json) (err : option string)
  (busy : bool) : State :=
  {| username := username st; repo := repo st; repoData := data; loading := busy;
     error := err; showEnhancedREADME := showEnhancedREADME st;
     enhancedData := enhancedData st; enhancing := enhancing st;
     copied := copied st |}.

Definition set_enhance (st : State) (shown : bool) (data : option json)
  (busy : bool) : State :=
  {| username := username st; repo := repo st; repoData := repoData st;
     loading := loading st; error := error st; showEnhancedREADME := shown;
     enhancedData := data; enhancing := busy; copied := copied st |}.

Definition set_copied (st : State) (flag : bool) : State :=
  {| username := username st; repo := repo st; repoData := repoData st;
     loading := loading st; error := error st;
     showEnhancedREADME := showEnhancedREADME st;
     enhancedData := enhancedData st; enhancing := enhancing st;
     copied := flag |}.

(** Which return the component reaches: the spinner, the "Analysis
    Failed" card, or the markup of the repository page, built from
    [repoData] and, when [showEnhancedREADME && enhancedData] holds, from
    the enhanced README.  Past the two guards the component evaluates
    [Object.values(repoData.languages)] and the markup, which read the
    fields of [repoData] and throw, into the ErrorBoundary, when the body
    the server sent lacks them: [RepositoryMarkup] says that the guards
    are passed with these values, not that the markup is completed. *)
Inductive screen : Type :=
| Spinner
| AnalysisFailed (message : option string)
| RepositoryMarkup (repoData : json) (enhanced : option json).

Definition render (st : State) : screen :=
  if loading st then Spinner
  else
    match repoData st with
    | Some d =>
        if DashboardPage.error_truthy (error st) || negb (json_truthy d)
        then AnalysisFailed (error st)
        else RepositoryMarkup d
               (if showEnhancedREADME st && Dashboard.nullable_truthy (enhancedData st)
                then enhancedData st else None)
    | None => AnalysisFailed (error st)
    end.

Section Handlers.

Variable VITE_API_URL : option string.
Variable net : Api.Network.

(** [fetchRepo] up to its [await]: the guard
    [if (!username || !repo) return], [setLoading(true)],
    [setError(null)], and the call of [analyzeRepo]. *)
Definition fetchRepo (w : World) : World :=
  let st := component w in
  if Dashboard.username_missing (username st) || Dashboard.username_missing (repo st)
  then w
  else
    let u := match username st with Some u => u | None => "" end in
    let r := match repo st with Some r => r | None => "" end in
    let '(outcome, sent') := Api.analyzeRepo VITE_API_URL u r net (sent w) in
    {| component := set_load st (repoData st) None true;
       sent := sent'; loads := (loads w ++ [outcome])%list;
       enhancements := enhancements w; clipboard := clipboard w;
       timers := timers w; console := console w |}.

(** [fetchRepo] after its [await]. *)
Definition fetchRepo_resume (outcome : Api.settled json) (w : World) : World :=
  let st := component w in
  match outcome with
  | Api.Resolved data => with_component w (set_load st (Some data) (error st) false)
  | Api.Rejected _ =>
      with_component w
        (set_load st (repoData st) (Some "Failed to analyze repository") false)
  end.

(** [handleEnhanceREADME] up to its [await]: the guard
    [if (!repoData || enhancing) return], [setEnhancing(true)], and the
    call [enhanceREADME(repoData.readme_content, repoData.name)]. *)
Definition handleEnhanceREADME (w : World) : World :=
  let st := component w in
  match repoData st with
  | None => w
  | Some d =>
      if negb (json_truthy d) || enhancing st then w
      else
        let '(outcome, sent') :=
          enhanceREADME VITE_API_URL (member d "readme_content") (member d "name")
            net (sent w) in
        {| component := set_enhance st (showEnhancedREADME st) (enhancedData st) true;
           sent := sent'; loads := loads w;
           enhancements := (enhancements w ++ [outcome])%list;
           clipboard := clipboard w; timers := timers w; console := console w |}
  end.

(** [handleEnhanceREADME] after its [await]: [try], [catch], and
    [setEnhancing(false)] in [finally]. *)
Definition handleEnhanceREADME_resume (outcome : Api.settled json) (w : World) : World :=
  let st := component w in
  match outcome with
  | Api.Resolved data => with_component w (set_enhance st true (Some data) false)
  | Api.Rejected _ =>
      {| component := set_enhance st (showEnhancedREADME st) (enhancedData st) false;
         sent := sent w; loads := loads w; enhancements := enhancements w;
         clipboard := clipboard w; timers := timers w;
         console := (console w ++ ["Failed to enhance README"])%list |}
  end.

(** [handleCopyREADME], with the Clipboard API available: the guard
    [if (!enhancedData) return], the write, [setCopied(true)], and the
    timeout that will call [setCopied(false)]. *)
Definition handleCopyREADME (w : World) : World :=
  let st := component w in
  match enhancedData st with
  | None => w
  | Some d =>
      if negb (json_truthy d) then w
      else
        {| component := set_copied st true;
           sent := sent w; loads := loads w; enhancements := enhancements w;
           clipboard := (clipboard w ++ [member d "enhanced_readme"])%list;
           timers := S (timers w); console := console w |}
  end.

(** One of the timeouts fires: [() => setCopied(false)]. *)
Definition timeout_fires (w : World) : World :=
  match timers w with
  | O => w
  | S n =>
      {| component := set_copied (component w) false;
         sent := sent w; loads := loads w; enhancements := enhancements w;
         clipboard := clipboard w; timers := n; console := console w |}
  end.

(** What can happen to a mounted page whose route does not change. *)
Inductive event : Type :=
| RepoSettles (i : nat)
| EnhanceClicked
| EnhanceSettles (i : nat)
| CopyClicked
| TimeoutFires.

Definition remove_load (i : nat) (w : World) : World :=
  {| component := component w; sent := sent w;
     loads := Dashboard.remove_nth i (loads w);
     enhancements := enhancements w; clipboard := clipboard w;
     timers := timers w; console := console w |}.

Definition remove_enhancement (i : nat) (w : World) : World :=
  {| component := component w; sent := sent w; loads := loads w;
     enhancements := Dashboard.remove_nth i (enhancements w);
     clipboard := clipboard w; timers := timers w; console := console w |}.

Definition step (w : World) (ev : event) : World :=
  match ev with
  | RepoSettles i =>
      match nth_error (loads w) i with
      | None => w
      | Some outcome => fetchRepo_resume outcome (remove_load i w)
      end
  | EnhanceClicked => handleEnhanceREADME w
  | EnhanceSettles i =>
      match nth_error (enhancements w) i with
      | None => w
      | Some outcome => handleEnhanceREADME_resume outcome (remove_enhancement i w)
      end
  | CopyClicked => handleCopyREADME w
  | TimeoutFires => timeout_fires w
  end.

Definition run (w : World) (evs : list event) : World :=
  fold_left step evs w.

(** The page after its first render and the run of the effect. *)
Definition mount (username repo : option string) : World :=
  fetchRepo
    {| component := initial username repo; sent := []; loads := [];
       enhancements := []; clipboard := []; timers := 0; console := [] |}.

(** What stays true of a mounted page: a README is being enhanced exactly
    when one promise of [enhanceREADME] is awaited, and there is never a
    second one; "Copied!" is shown only while a timeout that will take it
    back is pending; nothing reached the clipboard, and no enhanced README
    is shown, unless one is held. *)
Definition page_invariant (w : World) : Prop :=
  (enhancing (component w) = true <-> enhancements w <> [])
  /\ List.length (enhancements w) <= 1
  /\ (copied (component w) = true -> 0 < timers w)
  /\ (clipboard w <> [] -> enhancedData (component w) <> None)
  /\ (showEnhancedREADME (component w) = true -> enhancedData (component w) <> None).

End Handlers.

End RepoPage.

(* ===================================================================== *)
(** * Part II: theorems                                                   *)
(* ===================================================================== *)

(** ** Homepage: the analyze form *)

Section HomepageFacts.
Import JS.

Lemma trimStart_nil_iff (s : utf16) :
  trimStart s = [] <-> forallb is_white_space s = true.
Proof.
  induction s as [|c s IH]; simpl.
  - tauto.
  - destruct (is_white_space c); simpl.
    + exact IH.
    + split; intro H; discriminate H.
Qed.

Lemma trimStart_suffix (s : utf16) :
  exists pre, s = (pre ++ trimStart s)%list /\ forallb is_white_space pre = true.
Proof.
  induction s as [|c s (pre & Hs & Hpre)]; simpl.
  - exists []. split; reflexivity.
  - destruct (is_white_space c) eqn:Hc.
    + exists (c :: pre). simpl. rewrite Hc, Hpre. split; [congruence | reflexivity].
    + exists []. split; reflexivity.
Qed.

Lemma trimStart_head (s : utf16) (c : N) (rest : utf16) :
  trimStart s = c :: rest -> is_white_space c = false.
Proof.
  induction s as [|d s IH]; simpl; [discriminate|].
  destruct (is_white_space d) eqn:Hd; [exact IH|].
  intros [= -> _]. exact Hd.
Qed.

Lemma trimStart_fixed (s : utf16) (c : N) (rest : utf16) :
  s = c :: rest -> is_white_space c = false -> trimStart s = s.
Proof. intros -> H. simpl. rewrite H. reflexivity. Qed.

Lemma forallb_rev {A} (f : A -> bool) (l : list A) :
  forallb f (rev l) = forallb f l.
Proof.
  induction l as [|a l IH]; simpl; [reflexivity|].
  rewrite forallb_app, IH. simpl. rewrite andb_true_r. apply andb_comm.
Qed.

Lemma trim_nil_iff (s : utf16) :
  trim s = [] <-> forallb is_white_space s = true.
Proof.
  unfold trim, trimEnd. split.
  - intro H. apply trimStart_nil_iff.
    destruct (trimStart s) as [|c rest] eqn:Hs; [reflexivity|].
    assert (Hrev : trimStart (rev (c :: rest)) = []).
    { destruct (trimStart (rev (c :: rest))) as [|x xs] eqn:E; [reflexivity|].
      apply (f_equal (@List.length N)) in H. rewrite length_rev in H. simpl in H.
      discriminate H. }
    apply trimStart_nil_iff in Hrev. rewrite forallb_rev in Hrev.
    simpl in Hrev. apply andb_prop in Hrev as [Hc _].
    apply trimStart_head in Hs. congruence.
  - intro H. apply trimStart_nil_iff in H. rewrite H. reflexivity.
Qed.

(** [trim] removes white space at both ends and nothing else. *)
Lemma trim_infix (s : utf16) :
  exists pre post,
    s = (pre ++ trim s ++ post)%list
    /\ forallb is_white_space pre = true
    /\ forallb is_white_space post = true.
Proof.
  destruct (trimStart_suffix s) as (pre & Hs & Hpre).
  destruct (trimStart_suffix (rev (trimStart s))) as (post & Hr & Hpost).
  exists pre, (rev post). unfold trim, trimEnd.
  split; [|split].
  - rewrite Hs at 1. f_equal.
    rewrite <- rev_app_distr, <- Hr, rev_involutive. reflexivity.
  - exact Hpre.
  - rewrite forallb_rev. exact Hpost.
Qed.

Lemma trimStart_idem_on_tail (s : utf16) (c : N) (rest : utf16) :
  trimStart s = c :: rest -> trimStart (c :: rest) = c :: rest.
Proof.
  intros H. apply trimStart_head in H. simpl. rewrite H. reflexivity.
Qed.

Lemma trim_ends (s : utf16) (c : N) (rest : utf16) :
  trim s = c :: rest ->
  is_white_space c = false
  /\ is_white_space (last (c :: rest) c) = false.
Proof.
  unfold trim, trimEnd. intros H.
  destruct (trimStart_suffix (rev (trimStart s))) as (post & Hr & Hpost).
  assert (Hrev : trimStart (rev (trimStart s)) = rev (c :: rest)).
  { rewrite <- H, rev_involutive. reflexivity. }
  split.
  - apply (f_equal (@rev N)) in Hr. rewrite rev_involutive, rev_app_distr, H in Hr.
    simpl in Hr. eapply trimStart_head. exact Hr.
  - destruct (rev (c :: rest)) as [|d tl] eqn:Hd.
    + apply (f_equal (@List.length N)) in Hd. rewrite length_rev in Hd. discriminate Hd.
    + pose proof (trimStart_head _ _ _ Hrev) as Hws.
      apply (f_equal (@rev N)) in Hd. rewrite rev_involutive in Hd. rewrite Hd.
      simpl. rewrite last_last. exact Hws.
Qed.

Lemma trim_fixed (s : utf16) (c : N) (rest : utf16) :
  s = c :: rest -> is_white_space c = false ->
  is_white_space (last s c) = false -> trim s = s.
Proof.
  intros Hs Hc Hl. unfold trim, trimEnd.
  rewrite (trimStart_fixed s c rest Hs Hc).
  destruct (rev s) as [|d tl] eqn:Hd.
  - apply (f_equal (@rev N)) in Hd. rewrite rev_involutive in Hd. exact (eq_sym Hd).
  - assert (Hlast : last s c = d).
    { apply (f_equal (@rev N)) in Hd. rewrite rev_involutive in Hd. rewrite Hd.
      simpl. apply last_last. }
    rewrite Hlast in Hl. simpl. rewrite Hl. rewrite <- Hd. apply rev_involutive.
Qed.

Lemma trim_idempotent (s : utf16) : trim (trim s) = trim s.
Proof.
  destruct (trim s) as [|c rest] eqn:H; [reflexivity|].
  destruct (trim_ends s c rest H) as [Hc Hl].
  apply (trim_fixed (c :: rest) c rest eq_refl Hc Hl).
Qed.

(** C10: submitting the form navigates to [/dashboard/<trimmed username>]
    exactly when the username is not blank; a username made of white space
    only (or empty) trims to the empty string and causes no navigation.
    The trimmed username is the one non-empty text that neither starts nor
    ends with white space and that the submitted text holds between two
    runs of white space. *)
Theorem handleAnalyze_navigates_iff_not_blank (username : utf16) :
  Homepage.navigated (Homepage.handleAnalyze username) =
    (if forallb is_white_space username then None
     else Some (lit "/dashboard/" ++ trim username)%list)
  /\ (forallb is_white_space username = true <-> trim username = [])
  /\ (forallb is_white_space username = false ->
      exists c rest before after,
        trim username = c :: rest
        /\ is_white_space c = false
        /\ is_white_space (last (c :: rest) c) = false
        /\ username = (before ++ (c :: rest) ++ after)%list
        /\ forallb is_white_space before = true
        /\ forallb is_white_space after = true).
Proof.
  split; [|split].
  - unfold Homepage.handleAnalyze. simpl.
    destruct (forallb is_white_space username) eqn:Hw.
    + apply trim_nil_iff in Hw. rewrite Hw. reflexivity.
    + destruct (trim username) eqn:Ht; [|reflexivity].
      apply trim_nil_iff in Ht. congruence.
  - symmetry. apply trim_nil_iff.
  - intros Hw.
    destruct (trim username) as [|c rest] eqn:Ht.
    + apply trim_nil_iff in Ht. congruence.
    + destruct (trim_ends username c rest Ht) as [Hc Hl].
      destruct (trim_infix username) as (before & after & Hu & Hb & Ha).
      rewrite Ht in Hu.
      exists c, rest, before, after. repeat split; assumption.
Qed.

Example handleAnalyze_octocat :
  Homepage.navigated (Homepage.handleAnalyze (lit "  octocat ")) =
    Some (lit "/dashboard/octocat").
Proof. reflexivity. Qed.

Example handleAnalyze_blank :
  Homepage.navigated (Homepage.handleAnalyze [0x20; 0xA0; 0x09; 0x3000]%N) = None.
Proof. reflexivity. Qed.

End HomepageFacts.

(** ** ErrorBoundary: the fallback is permanent *)

Section ErrorBoundaryFacts.
Import ErrorBoundary.

Lemma step_keeps_error (i i' : instance) (ev : event) :
  hasError (state i) = true -> step i ev = Some i' ->
  hasError (state i') = true.
Proof.
  intros H. destruct ev; simpl.
  - intros [= <-]. reflexivity.
  - intros [= <-]. exact H.
  - rewrite H. discriminate.
Qed.

Lemma renders_after_error {A} (children : A) (evs : list event) (i : instance) :
  hasError (state i) = true ->
  Forall (fun r => r = FallbackUI) (renders children i evs).
Proof.
  revert i. induction evs as [|ev evs IH]; intros i H; simpl.
  - constructor.
  - destruct (step i ev) as [i'|] eqn:Hs; [|constructor].
    pose proof (step_keeps_error _ _ _ H Hs) as H'.
    constructor; [|apply IH; exact H'].
    unfold render. rewrite H'. reflexivity.
Qed.

Lemma run_keeps_error (evs : list event) (i i' : instance) :
  hasError (state i) = true -> run i evs = Some i' ->
  hasError (state i') = true.
Proof.
  revert i. induction evs as [|ev evs IH]; intros i H; simpl.
  - intros [= <-]. exact H.
  - destruct (step i ev) as [j|] eqn:Hs; [|discriminate].
    apply IH. eapply step_keeps_error; eassumption.
Qed.

(** C2: when a render error is caught ([DescendantThrows]) the state
    becomes [hasError = true]; from then on every render of the same
    instance returns the fallback, and no later event brings [hasError]
    back to [false], whatever happened before and whatever happens after. *)
Theorem fallback_is_permanent {A} (children : A)
  (before after : list event) (i caught : instance) :
  run mount before = Some i ->
  step i DescendantThrows = Some caught ->
  hasError (state caught) = true
  /\ render children (state caught) = FallbackUI
  /\ Forall (fun r => r = FallbackUI) (renders children caught after)
  /\ (forall final, run caught after = Some final ->
        hasError (state final) = true).
Proof.
  intros _ Hc. simpl in Hc. injection Hc as <-.
  split; [reflexivity|]. split; [reflexivity|]. split.
  - apply renders_after_error. reflexivity.
  - intros final. apply run_keeps_error. reflexivity.
Qed.

Lemma fallback_is_permanent_witness :
  let caught := {| state := {| hasError := true |}; reported := 1 |} in
  let after := [Rerender; DescendantThrows; Rerender] in
  hasError (state caught) = true
  /\ render tt (state caught) = FallbackUI
  /\ Forall (fun r => r = FallbackUI) (renders tt caught after)
  /\ (forall final, run caught after = Some final ->
        hasError (state final) = true).
Proof.
  exact (fallback_is_permanent tt [Rerender; ReloadClicked]
           [Rerender; DescendantThrows; Rerender] mount
           {| state := {| hasError := true |}; reported := 1 |}
           eq_refl eq_refl).
Defined.

(** Before any error the boundary shows its children. *)
Lemma render_children_until_error {A} (children : A) :
  render children (state mount) = ChildrenOf children.
Proof. reflexivity. Qed.

End ErrorBoundaryFacts.

(** ** Quality badges of Dashboard and RepoDetail *)

Section BadgeFacts.
Import JS.

(** Each of the five tiers has a style of its own, in both views. *)
Lemma getQualityBadge_tiers :
  map Dashboard.getQualityBadge tiers =
    [ VJson (JStr "bg-red-100 text-red-800");
      VJson (JStr "bg-orange-100 text-orange-800");
      VJson (JStr "bg-yellow-100 text-yellow-800");
      VJson (JStr "bg-blue-100 text-blue-800");
      VJson (JStr "bg-green-100 text-green-800") ]
  /\ List.NoDup (map Dashboard.getQualityBadge tiers).
Proof.
  split; [reflexivity|]. vm_compute.
  repeat (constructor; [intros H; simpl in H; intuition discriminate|]).
  constructor.
Qed.

Lemma getQualityColor_tiers :
  map RepoDetail.getQualityColor tiers =
    [ VJson (JStr "text-red-600 bg-red-100");
      VJson (JStr "text-orange-600 bg-orange-100");
      VJson (JStr "text-yellow-600 bg-yellow-100");
      VJson (JStr "text-blue-600 bg-blue-100");
      VJson (JStr "text-green-600 bg-green-100") ]
  /\ List.NoDup (map RepoDetail.getQualityColor tiers).
Proof.
  split; [reflexivity|]. vm_compute.
  repeat (constructor; [intros H; simpl in H; intuition discriminate|]).
  constructor.
Qed.

Lemma own_property_absent (fields : list (string * json)) (k : string) :
  ~ In k (map fst fields) -> own_property fields k = None.
Proof.
  induction fields as [|[k' v] fields IH]; simpl; [reflexivity|].
  intros H. destruct (String.eqb_spec k' k) as [->|_].
  - exfalso. apply H. left. reflexivity.
  - apply IH. intro Hin. apply H. right. exact Hin.
Qed.

Lemma existsb_eqb_false (k : string) (keys : list string) :
  ~ In k keys -> existsb (String.eqb k) keys = false.
Proof.
  induction keys as [|k' keys IH]; simpl; [reflexivity|].
  intros H. destruct (String.eqb_spec k k') as [->|_].
  - exfalso. apply H. left. reflexivity.
  - apply IH. intro Hin. apply H. right. exact Hin.
Qed.

(** A string that is neither a tier nor a member of [Object.prototype]
    gets the style of tier [none]. *)
Lemma quality_fallback (quality : string) :
  ~ In quality tiers -> ~ In quality object_prototype_keys ->
  Dashboard.getQualityBadge quality = Dashboard.getQualityBadge "none"
  /\ RepoDetail.getQualityColor quality = RepoDetail.getQualityColor "none".
Proof.
  intros Ht Hp.
  unfold Dashboard.getQualityBadge, RepoDetail.getQualityColor, get_property.
  rewrite !(own_property_absent _ quality), (existsb_eqb_false _ _ Hp).
  - split; reflexivity.
  - simpl. simpl in Ht. tauto.
  - simpl. simpl in Ht. tauto.
Qed.

(** C7: at the quality string ["constructor"], which is not one of the
    five tiers, the lookup [colors[quality]] finds the member inherited
    from [Object.prototype]; it is truthy, so both views return it
    in place of the style of tier [none]. *)
Theorem quality_style_inherited_key :
  ~ In "constructor" tiers
  /\ Dashboard.getQualityBadge "constructor" = VInherited "constructor"
  /\ Dashboard.getQualityBadge "constructor" <> Dashboard.getQualityBadge "none"
  /\ RepoDetail.getQualityColor "constructor" = VInherited "constructor"
  /\ RepoDetail.getQualityColor "constructor" <> RepoDetail.getQualityColor "none".
Proof.
  split; [simpl; intuition discriminate|].
  repeat split; try reflexivity; discriminate.
Qed.

End BadgeFacts.

(** ** The API client: one request, and what becomes of the response *)

Section ApiFacts.
Import JS Api.

Variable VITE_API_URL : option string.

(** The four operations share everything after the call of [fetch]. *)
Lemma perform_unfold (c : call) (net : Network) (log : list Request) :
  perform VITE_API_URL c net log =
    bind (fetch (request_of VITE_API_URL c))
      (fun response =>
         if negb (ok response) then
           bind (catch (response_json response)
                   (fun _ => ret (JObj [("detail", JStr "Unknown error")])))
             (fun error =>
                bind (detail_of error)
                  (fun detail =>
                     throw (new_Error
                              (or_else detail
                                 (VJson (JStr ("HTTP " ++ string_of_N (status response))))))))
         else response_json response) net log.
Proof. destruct c; reflexivity. Qed.

(** Every operation sends exactly one request, whatever the outcome. *)
Lemma perform_sends_once (c : call) (net : Network) (log : list Request) :
  snd (perform VITE_API_URL c net log) = (log ++ [request_of VITE_API_URL c])%list.
Proof.
  rewrite perform_unfold. unfold bind, fetch, catch, response_json.
  destruct (net _) as [r|]; [|reflexivity].
  destruct (ok r); simpl; [destruct (json_body r); reflexivity|].
  destruct (json_body r) as [j|]; [|reflexivity].
  destruct j; reflexivity.
Qed.






End ApiFacts.


(** A [detail] that is not a string reaches the message through
    [ToString] (here the list FastAPI sends for a validation error). *)
Example api_client_detail_list :
  let net : Api.Network :=
    fun _ => Some {| Api.ok := false; Api.status := 422;
                     Api.json_body :=
                       Some (JS.JObj [("detail", JS.JArr [JS.JObj []; JS.JObj []])]) |} in
  fst (Api.enhanceREADME None "" "repo" net []) =
    Api.Rejected (Api.Error "[object Object],[object Object]").
Proof. reflexivity. Qed.

Example api_client_http_status :
  let net : Api.Network :=
    fun _ => Some {| Api.ok := false; Api.status := 404;
                     Api.json_body := Some (JS.JObj []) |} in
  Api.enhancePortfolio None "octocat" net [] =
    (Api.Rejected (Api.Error "HTTP 404"),
     [Api.mkRequest "http://localhost:8000/enhance/portfolio?username=octocat"
        Api.POST [] None]).
Proof. reflexivity. Qed.

(** ** Dashboard: loading the enhancement plan *)

Section DashboardFacts.
Import JS Dashboard.

Variable VITE_API_URL : option string.
Variable net : Api.Network.

Lemma handleLoadEnhancement_guarded (w : World) :
  username_missing (username (component w)) = true
  \/ nullable_truthy (enhancement (component w)) = true ->
  handleLoadEnhancement VITE_API_URL net w = w.
Proof.
  intros [H|H]; unfold handleLoadEnhancement; rewrite H; simpl.
  - reflexivity.
  - rewrite orb_true_r. reflexivity.
Qed.

(** When the guard lets the handler through, it sends exactly one request
    and touches no state before the promise settles. *)
Lemma handleLoadEnhancement_sends (w : World) (u : string) :
  username (component w) = Some u -> u <> "" ->
  nullable_truthy (enhancement (component w)) = false ->
  component (handleLoadEnhancement VITE_API_URL net w) = component w
  /\ sent (handleLoadEnhancement VITE_API_URL net w)
     = (sent w ++ [Api.request_of VITE_API_URL (Api.EnhancePortfolio u)])%list
  /\ List.length (awaiting (handleLoadEnhancement VITE_API_URL net w)) = S (List.length (awaiting w)).
Proof.
  intros Hu Hne He. unfold handleLoadEnhancement. rewrite Hu, He. simpl.
  destruct (String.eqb_spec u "") as [->|_]; [contradiction|]. simpl.
  pose proof (perform_sends_once VITE_API_URL (Api.EnhancePortfolio u) net (sent w)) as Hs.
  simpl in Hs.
  destruct (Api.enhancePortfolio VITE_API_URL u net (sent w)) as [outcome sent'].
  simpl in *. rewrite length_app. simpl. repeat split; [exact Hs|lia].
Qed.

Lemma resume_keeps_sent (o : Api.settled json) (w : World) :
  sent (handleLoadEnhancement_resume o w) = sent w.
Proof. destruct o; reflexivity. Qed.

Lemma step_keeps_shown (w : World) (ev : event) :
  showEnhancement (component w) = true ->
  showEnhancement (component (step VITE_API_URL net w ev)) = true.
Proof.
  intros H. destruct ev; simpl.
  - unfold handleLoadEnhancement.
    destruct (_ || _); [exact H|].
    destruct (Api.enhancePortfolio _ _ _ _). exact H.
  - destruct (nth_error (awaiting w) i) as [o|]; [|exact H].
    destruct o; simpl; [reflexivity|exact H].
Qed.

Lemma Forall_remove_nth {A} (P : A -> Prop) (i : nat) (l : list A) :
  Forall P l -> Forall P (remove_nth i l).
Proof.
  intros H. revert i. induction H as [|x l Hx Hl IH]; intros i.
  - destruct i; constructor.
  - destruct i; simpl; [exact Hl|]. constructor; [exact Hx|apply IH].
Qed.

Lemma loaded_invariant (w : World) (ev : event) :
  nullable_truthy (enhancement (component w)) = true -> Forall settles_truthy (awaiting w) ->
  nullable_truthy (enhancement (component (step VITE_API_URL net w ev))) = true
  /\ Forall settles_truthy (awaiting (step VITE_API_URL net w ev))
  /\ sent (step VITE_API_URL net w ev) = sent w.
Proof.
  intros He Ha. destruct ev; simpl.
  - rewrite handleLoadEnhancement_guarded by (right; exact He). auto.
  - destruct (nth_error (awaiting w) i) as [o|] eqn:Hnth; [|auto].
    pose proof (Forall_remove_nth _ i _ Ha) as Hrest.
    assert (Ho : settles_truthy o).
    { rewrite Forall_forall in Ha. apply Ha. eapply nth_error_In. exact Hnth. }
    destruct o as [data|e]; simpl.
    + split; [apply Ho; reflexivity|]. split; [exact Hrest|reflexivity].
    + split; [exact He|]. split; [exact Hrest|reflexivity].
Qed.

Lemma loaded_no_more_requests (evs : list event) (w : World) :
  nullable_truthy (enhancement (component w)) = true -> Forall settles_truthy (awaiting w) ->
  sent (run VITE_API_URL net w evs) = sent w
  /\ nullable_truthy (enhancement (component (run VITE_API_URL net w evs))) = true.
Proof.
  unfold run. revert w.
  induction evs as [|ev evs IH]; intros w He Ha; simpl; [split; [reflexivity|exact He]|].
  destruct (loaded_invariant w ev He Ha) as (He' & Ha' & Hs).
  destruct (IH _ He' Ha') as [IHs IHe].
  split; [rewrite IHs; exact Hs|exact IHe].
Qed.

(** C8 (as amended): with no username, or once a plan is held
    ([enhancement] is truthy, as every object is),
    [handleLoadEnhancement] changes nothing (no state, no request, no
    pending promise, no console output); no step of the handler brings
    [showEnhancement] from [true] back to [false]; and once a plan is
    held, no later click or settling promise sends another request and a
    plan stays held, provided every promise still awaited rejects or
    resolves to truthy data (an object, as the type [EnhancedPortfolio]
    says).  While
    [enhancement] is falsy, before the first answer, after a failed fetch
    or after an answer of [null], the handler does fetch again. *)
Theorem handleLoadEnhancement_frame :
  (forall w,
     username_missing (username (component w)) = true
     \/ nullable_truthy (enhancement (component w)) = true ->
     handleLoadEnhancement VITE_API_URL net w = w)
  /\ (forall w ev,
        showEnhancement (component w) = true ->
        showEnhancement (component (step VITE_API_URL net w ev)) = true)
  /\ (forall w evs,
        nullable_truthy (enhancement (component w)) = true ->
        Forall settles_truthy (awaiting w) ->
        sent (run VITE_API_URL net w evs) = sent w
        /\ nullable_truthy (enhancement (component (run VITE_API_URL net w evs))) = true)
  /\ (forall w u,
        username (component w) = Some u -> u <> "" ->
        nullable_truthy (enhancement (component w)) = false ->
        sent (handleLoadEnhancement VITE_API_URL net w)
        = (sent w ++ [Api.request_of VITE_API_URL (Api.EnhancePortfolio u)])%list).
Proof.
  split; [exact handleLoadEnhancement_guarded|].
  split; [exact step_keeps_shown|].
  split; [intros w evs; apply loaded_no_more_requests|].
  intros w u Hu Hne He.
  apply (handleLoadEnhancement_sends w u Hu Hne He).
Qed.

End DashboardFacts.

(** C8 (as stated) fails: when the first fetch is answered with an error,
    [enhancement] stays null and a second click fetches again, so one
    mounted dashboard sends two requests. *)
Lemma enhancement_fetched_twice :
  let net : Api.Network :=
    fun _ => Some {| Api.ok := false; Api.status := 500; Api.json_body := None |} in
  let w := Dashboard.run None net (Dashboard.mounted (Some "octocat"))
             [Dashboard.PlanButtonClicked; Dashboard.PromiseSettles 0;
              Dashboard.PlanButtonClicked] in
  List.length (Dashboard.sent w) = 2
  /\ Dashboard.enhancement (Dashboard.component w) = None
  /\ Dashboard.console w = ["Failed to load enhancement suggestions"].
Proof. vm_compute. repeat split. Qed.

(** Two clicks before the first answer also send two requests, and both
    answers are stored one after the other. *)
Example enhancement_double_click :
  let plan := JS.JObj [("current_score", JS.JNum 40); ("potential_score", JS.JNum 70)] in
  let net : Api.Network :=
    fun _ => Some {| Api.ok := true; Api.status := 200; Api.json_body := Some plan |} in
  let w := Dashboard.run None net (Dashboard.mounted (Some "octocat"))
             [Dashboard.PlanButtonClicked; Dashboard.PlanButtonClicked;
              Dashboard.PromiseSettles 1; Dashboard.PromiseSettles 0;
              Dashboard.PlanButtonClicked] in
  List.length (Dashboard.sent w) = 2
  /\ Dashboard.enhancement (Dashboard.component w) = Some plan
  /\ Dashboard.showEnhancement (Dashboard.component w) = true.
Proof. vm_compute. repeat split. Qed.

(** A plan that is held can be lost again: the plan request for a first
    user is still pending when the route changes and the plan of the
    second user is loaded; the late answer, here [null], then replaces
    the plan, and the next click fetches once more. *)
Example enhancement_wiped_by_late_answer :
  let plan := JS.JObj [("current_score", JS.JNum 40); ("potential_score", JS.JNum 70)] in
  let first := Api.request_of None (Api.EnhancePortfolio "ada") in
  let net : Api.Network :=
    fun rq =>
      Some {| Api.ok := true; Api.status := 200;
              Api.json_body :=
                Some (if String.eqb (Api.url rq) (Api.url first) then JS.JNull else plan) |} in
  let loaded :=
    DashboardPage.run None net (DashboardPage.mount None net (Some "ada"))
      [DashboardPage.Plan Dashboard.PlanButtonClicked;
       DashboardPage.RouteChanged (Some "grace");
       DashboardPage.Plan Dashboard.PlanButtonClicked;
       DashboardPage.Plan (Dashboard.PromiseSettles 1)] in
  let wiped := DashboardPage.step None net loaded
                 (DashboardPage.Plan (Dashboard.PromiseSettles 0)) in
  let again := DashboardPage.step None net wiped
                 (DashboardPage.Plan Dashboard.PlanButtonClicked) in
  Dashboard.enhancement (Dashboard.component (DashboardPage.world loaded)) = Some plan
  /\ Dashboard.awaiting (DashboardPage.world loaded) = [Api.Resolved JS.JNull]
  /\ Dashboard.nullable_truthy
       (Dashboard.enhancement (Dashboard.component (DashboardPage.world wiped))) = false
  /\ List.length (Dashboard.sent (DashboardPage.world again))
     = S (List.length (Dashboard.sent (DashboardPage.world loaded))).
Proof. vm_compute. repeat split. Qed.

(** ** RepoDetail: the language percentages *)

Section LanguageFacts.
Import JS RepoDetail.

Lemma round_half_even_le (x : Q) (k : Z) :
  (x <= inject_Z k)%Q -> (round_half_even x <= k)%Z.
Proof.
  intros H. unfold round_half_even.
  pose proof (Qfloor_le x) as Hf.
  assert (Hfk : (Qfloor x <= k)%Z).
  { rewrite Zle_Qle. lra. }
  assert (Hup : (inject_Z (Qfloor x) < x)%Q -> (Qfloor x + 1 <= k)%Z).
  { intros Hlt. assert (Qfloor x < k)%Z; [|lia]. rewrite Zlt_Qlt. lra. }
  destruct (Qcompare_spec (x - inject_Z (Qfloor x)) (1 # 2)) as [E|E|E].
  - destruct (Z.even (Qfloor x)); [exact Hfk|]. apply Hup. lra.
  - exact Hfk.
  - apply Hup. lra.
Qed.

Lemma round_half_even_ge (x : Q) (k : Z) :
  (inject_Z k <= x)%Q -> (k <= round_half_even x)%Z.
Proof.
  intros H. unfold round_half_even.
  pose proof (Qlt_floor x) as Hf.
  assert (Hkf : (k <= Qfloor x)%Z).
  { assert (k < Qfloor x + 1)%Z; [|lia]. rewrite Zlt_Qlt. lra. }
  destruct (Qcompare (x - inject_Z (Qfloor x)) (1 # 2));
    [destruct (Z.even (Qfloor x))|..]; lia.
Qed.

(** A positive number below [2^53] lies at most in the binade of [2^52]. *)
Lemma floor_log2_le (q : Q) :
  (0 < q)%Q -> (q < inject_Z (2 ^ 53))%Q -> (floor_log2 q <= 52)%Z.
Proof.
  intros Hpos Hlt. unfold floor_log2.
  destruct q as [n d]. unfold Qlt in Hpos, Hlt. simpl in Hpos, Hlt. simpl Qnum. simpl Qden.
  assert (Hn : (0 < n)%Z) by lia.
  assert (Hk : (Z.log2 n <= 53 + Z.log2 (Z.pos d))%Z).
  { rewrite <- Z.log2_mul_pow2 by lia.
    apply Z.log2_le_mono. lia. }
  destruct (Qle_bool (pow2 (Z.log2 n - Z.log2 (Z.pos d))) (n # d)%Q) eqn:E; [|lia].
  apply Qle_bool_iff in E.
  assert (H53 : (pow2 (Z.log2 n - Z.log2 (Z.pos d)) < pow2 53)%Q).
  { eapply Qle_lt_trans; [exact E|].
    unfold Qlt. simpl. lia. }
  apply Qpower_lt_compat_l_inv in H53; [lia|reflexivity].
Qed.

Lemma pow2_pos (e : Z) : (0 < pow2 e)%Q.
Proof. apply Qpower_0_lt. reflexivity. Qed.

(** For [e <= 0] the grid of step [2^e] holds every integer. *)
Lemma integer_on_grid (e k : Z) :
  (e <= 0)%Z -> (inject_Z k / pow2 e == inject_Z (k * 2 ^ (- e)))%Q.
Proof.
  intros He. rewrite inject_Z_mult, Zpower_Qpower by lia.
  change (inject_Z 2) with (2 # 1)%Q. unfold pow2.
  rewrite Qpower_opp. unfold Qdiv. reflexivity.
Qed.

Lemma round64_between (q : Q) (lo hi : Z) :
  (0 < q)%Q -> (inject_Z lo <= q)%Q -> (q <= inject_Z hi)%Q -> (hi < 2 ^ 53)%Z ->
  exists v, round64 q = Finite v
            /\ (inject_Z lo <= v)%Q /\ (v <= inject_Z hi)%Q /\ Qred v = v.
Proof.
  intros Hpos Hlo Hhi Hb. unfold round64.
  destruct (Qle_bool q 0) eqn:E0.
  { apply Qle_bool_iff in E0. lra. }
  assert (Hq53 : (q < inject_Z (2 ^ 53))%Q).
  { eapply Qle_lt_trans; [exact Hhi|]. rewrite <- Zlt_Qlt. exact Hb. }
  pose proof (floor_log2_le q Hpos Hq53) as Hk.
  set (e := Z.max (floor_log2 q - 52) (-1074)).
  assert (He : (e <= 0)%Z) by (unfold e; lia).
  set (m := round_half_even (q / pow2 e)).
  pose proof (pow2_pos e) as Hp.
  assert (Hm_hi : (m <= hi * 2 ^ (- e))%Z).
  { apply round_half_even_le. rewrite <- integer_on_grid by exact He.
    unfold Qdiv. apply Qmult_le_compat_r; [exact Hhi|].
    apply Qlt_le_weak, Qinv_lt_0_compat, Hp. }
  assert (Hm_lo : (lo * 2 ^ (- e) <= m)%Z).
  { apply round_half_even_ge. rewrite <- integer_on_grid by exact He.
    unfold Qdiv. apply Qmult_le_compat_r; [exact Hlo|].
    apply Qlt_le_weak, Qinv_lt_0_compat, Hp. }
  set (v := Qred (inject_Z m * pow2 e)).
  assert (Hv : (v == inject_Z m * pow2 e)%Q) by apply Qred_correct.
  assert (Hback : forall k, (inject_Z (k * 2 ^ (- e)) * pow2 e == inject_Z k)%Q).
  { intros k. rewrite <- integer_on_grid by exact He. field.
    intro Hz. rewrite Hz in Hp. apply (Qlt_irrefl 0). exact Hp. }
  assert (Hv_hi : (v <= inject_Z hi)%Q).
  { rewrite Hv, <- (Hback hi). apply Qmult_le_compat_r; [|apply Qlt_le_weak, Hp].
    rewrite <- Zle_Qle. exact Hm_hi. }
  assert (Hv_lo : (inject_Z lo <= v)%Q).
  { rewrite Hv, <- (Hback lo). apply Qmult_le_compat_r; [|apply Qlt_le_weak, Hp].
    rewrite <- Zle_Qle. exact Hm_lo. }
  destruct (Qle_bool (pow2 1024) v) eqn:Eo.
  { apply Qle_bool_iff in Eo. exfalso.
    assert (H1024 : (inject_Z (2 ^ 53) <= pow2 1024)%Q).
    { change (inject_Z (2 ^ 53)) with (inject_Z (2 ^ 53)). unfold pow2.
      rewrite (Zpower_Qpower 2 53) by lia. change (inject_Z 2) with (2 # 1)%Q.
      apply Qpower_le_compat_l; [lia|]. unfold Qle. simpl. lia. }
    assert (inject_Z hi < inject_Z (2 ^ 53))%Q by (rewrite <- Zlt_Qlt; exact Hb).
    lra. }
  exists v. repeat split; try assumption.
  unfold v. apply Qred_complete, Qred_correct.
Qed.

Lemma Qred_inject_Z (n : Z) : Qred (inject_Z n) = inject_Z n.
Proof.
  unfold Qred, inject_Z.
  pose proof (Z.ggcd_gcd n 1) as Hg.
  pose proof (Z.ggcd_correct_divisors n 1) as Hd.
  destruct (Z.ggcd n 1) as [g [a b]]. simpl in Hg.
  rewrite Z.gcd_1_r in Hg. subst g. destruct Hd as [Ha Hb].
  assert (b = 1%Z) by lia. subst b. simpl. f_equal. lia.
Qed.

(** The integers up to [2^53] are doubles. *)
Lemma round64_integer (q : Q) (n : Z) :
  (q == inject_Z n)%Q -> (0 <= n < 2 ^ 53)%Z -> round64 q = Finite (inject_Z n).
Proof.
  intros Hq [H0 Hn].
  destruct (Z.eq_dec n 0) as [->|Hne].
  - unfold round64. replace (Qle_bool q 0) with true; [reflexivity|].
    symmetry. apply Qle_bool_iff. rewrite Hq. apply Qle_refl.
  - destruct (round64_between q n n) as (v & Hr & Hlo & Hhi & Hred).
    + rewrite Hq, <- (Zlt_Qlt 0). lia.
    + rewrite Hq. apply Qle_refl.
    + rewrite Hq. apply Qle_refl.
    + exact Hn.
    + rewrite Hr. f_equal. rewrite <- Hred, <- Qred_inject_Z.
      apply Qred_complete. apply Qle_antisym; assumption.
Qed.

Lemma pow2_plus (a b : Z) : (pow2 (a + b) == pow2 a * pow2 b)%Q.
Proof. unfold pow2. apply Qpower_plus. intro H. discriminate H. Qed.

Lemma pow2_of_Z (a : Z) : (0 <= a)%Z -> (pow2 a == inject_Z (2 ^ a))%Q.
Proof. intros H. unfold pow2. rewrite Zpower_Qpower by exact H. reflexivity. Qed.

Lemma quotient_lt (n a b d : Q) :
  (0 < b)%Q -> (0 < a)%Q -> (n < a)%Q -> (b <= d)%Q -> (n < a / b * d)%Q.
Proof.
  intros Hb Ha Hn Hd.
  apply Qlt_le_trans with (a / b * b)%Q.
  - setoid_replace (a / b * b)%Q with a by (field; lra). exact Hn.
  - apply (proj2 (Qmult_le_l b d (a / b) (Qlt_shift_div_l _ _ _ Hb
             ltac:(rewrite Qmult_0_l; exact Ha)))).
    exact Hd.
Qed.

Lemma quotient_le (n a b d : Q) :
  (0 < d)%Q -> (0 < a)%Q -> (a <= n)%Q -> (d <= b)%Q -> (a / b * d <= n)%Q.
Proof.
  intros Hd0 Ha Hn Hd.
  assert (Hb : (0 < b)%Q) by lra.
  apply Qle_trans with (a / b * b)%Q.
  - apply (proj2 (Qmult_le_l d b (a / b) (Qlt_shift_div_l _ _ _ Hb
             ltac:(rewrite Qmult_0_l; exact Ha)))).
    exact Hd.
  - setoid_replace (a / b * b)%Q with a by (field; lra). exact Hn.
Qed.

(** [floor_log2] names the binade of a positive number. *)
Lemma floor_log2_spec (q : Q) :
  (0 < q)%Q ->
  (pow2 (floor_log2 q) <= q)%Q /\ (q < pow2 (floor_log2 q + 1))%Q.
Proof.
  intros Hpos. unfold floor_log2.
  destruct q as [n d]. simpl Qnum. simpl Qden.
  assert (Hn : (0 < n)%Z) by (unfold Qlt in Hpos; simpl in Hpos; lia).
  set (a := Z.log2 n). set (b := Z.log2 (Z.pos d)).
  pose proof (Z.log2_spec n Hn) as [Ha1 Ha2].
  pose proof (Z.log2_spec (Z.pos d) eq_refl) as [Hb1 Hb2].
  fold a in Ha1, Ha2. fold b in Hb1, Hb2.
  pose proof (Z.log2_nonneg n) as Ha0. pose proof (Z.log2_nonneg (Z.pos d)) as Hb0.
  fold a in Ha0. fold b in Hb0.
  assert (Hq : (n # d == inject_Z n / inject_Z (Z.pos d))%Q) by apply Qmake_Qdiv.
  assert (Hd : (0 < inject_Z (Z.pos d))%Q) by reflexivity.
  assert (Hup : (n # d < pow2 (a - b + 1))%Q).
  { replace (a - b + 1)%Z with (Z.succ a + - b)%Z by lia.
    rewrite pow2_plus. unfold pow2 at 2. rewrite Qpower_opp. fold (pow2 b).
    rewrite (pow2_of_Z (Z.succ a)), (pow2_of_Z b) by lia.
    rewrite Hq. apply Qlt_shift_div_r; [exact Hd|].
    apply quotient_lt.
    - rewrite <- (Zlt_Qlt 0). lia.
    - rewrite <- (Zlt_Qlt 0). lia.
    - rewrite <- Zlt_Qlt. exact Ha2.
    - rewrite <- Zle_Qle. exact Hb1. }
  assert (Hdown : (pow2 (a - b - 1) <= n # d)%Q).
  { replace (a - b - 1)%Z with (a + - Z.succ b)%Z by lia.
    rewrite pow2_plus. unfold pow2 at 2. rewrite Qpower_opp. fold (pow2 (Z.succ b)).
    rewrite (pow2_of_Z a), (pow2_of_Z (Z.succ b)) by lia.
    rewrite Hq. apply Qle_shift_div_l; [exact Hd|].
    apply quotient_le.
    - exact Hd.
    - rewrite <- (Zlt_Qlt 0). lia.
    - rewrite <- Zle_Qle. exact Ha1.
    - rewrite <- Zle_Qle. lia. }
  destruct (Qle_bool (pow2 (a - b)) (n # d)%Q) eqn:E.
  - apply Qle_bool_iff in E. split; assumption.
  - split; [exact Hdown|].
    replace (a - b - 1 + 1)%Z with (a - b)%Z by lia.
    apply Qnot_le_lt. intro H. apply Qle_bool_iff in H. congruence.
Qed.

(** [round_half_even] is within one half of its argument. *)
Lemma round_half_even_nearest (x : Q) :
  (x - (1 # 2) <= inject_Z (round_half_even x))%Q
  /\ (inject_Z (round_half_even x) <= x + (1 # 2))%Q.
Proof.
  unfold round_half_even.
  pose proof (Qfloor_le x) as Hle. pose proof (Qlt_floor x) as Hlt.
  rewrite inject_Z_plus in Hlt. change (inject_Z 1) with 1%Q in Hlt.
  destruct (Qcompare_spec (x - inject_Z (Qfloor x)) (1 # 2)) as [E|E|E].
  - destruct (Z.even (Qfloor x)).
    + split; lra.
    + rewrite inject_Z_plus. change (inject_Z 1) with 1%Q. split; lra.
  - split; lra.
  - rewrite inject_Z_plus. change (inject_Z 1) with 1%Q. split; lra.
Qed.

(** What [round64] returns for a positive number: a multiple [m * 2^e] of
    the spacing [2^e] of its binade, with at most 53 bits in [m], at most
    half a spacing away. *)
Lemma round64_nearest (q : Q) :
  (0 < q)%Q ->
  let e := Z.max (floor_log2 q - 52) (-1074) in
  exists m,
    (0 <= m <= 2 ^ 53)%Z
    /\ (q - pow2 e * (1 # 2) <= inject_Z m * pow2 e)%Q
    /\ (inject_Z m * pow2 e <= q + pow2 e * (1 # 2))%Q
    /\ round64 q =
       if Qle_bool (pow2 1024) (Qred (inject_Z m * pow2 e)) then Infinity
       else Finite (Qred (inject_Z m * pow2 e)).
Proof.
  intros Hpos e. exists (round_half_even (q / pow2 e)).
  pose proof (pow2_pos e) as Hp.
  pose proof (round_half_even_nearest (q / pow2 e)) as [Hlo Hhi].
  assert (Hx : (q == q / pow2 e * pow2 e)%Q) by (field; lra).
  split; [split|split; [|split]].
  - apply round_half_even_ge.
    apply Qle_shift_div_l; [exact Hp|].
    change (inject_Z 0) with 0%Q. rewrite Qmult_0_l. apply Qlt_le_weak, Hpos.
  - apply round_half_even_le.
    destruct (floor_log2_spec q Hpos) as [_ Hk].
    apply Qle_shift_div_r; [exact Hp|].
    apply Qlt_le_weak. eapply Qlt_le_trans; [exact Hk|].
    rewrite <- pow2_of_Z by lia. rewrite <- pow2_plus.
    apply Qpower_le_compat_l; [unfold e; lia|]. unfold Qle. simpl. lia.
  - rewrite Hx at 1.
    setoid_replace (q / pow2 e * pow2 e - pow2 e * (1 # 2))%Q
      with ((q / pow2 e - (1 # 2)) * pow2 e)%Q by ring.
    apply Qmult_le_compat_r; [exact Hlo|apply Qlt_le_weak, Hp].
  - rewrite Hx at 2.
    setoid_replace (q / pow2 e * pow2 e + pow2 e * (1 # 2))%Q
      with ((q / pow2 e + (1 # 2)) * pow2 e)%Q by ring.
    apply Qmult_le_compat_r; [exact Hhi|apply Qlt_le_weak, Hp].
  - unfold round64.
    replace (Qle_bool q 0) with false; [reflexivity|].
    symmetry. apply not_true_is_false. intro H. apply Qle_bool_iff in H. lra.
Qed.

Lemma of_count_exact (n : N) :
  (n < 2 ^ 53)%N -> of_count n = Finite (inject_Z (Z.of_N n)).
Proof.
  intros H. apply round64_integer; [apply Qeq_refl|].
  change (2 ^ 53)%Z with (Z.of_N (2 ^ 53)). lia.
Qed.

Lemma add_exact (a b : Z) :
  (0 <= a)%Z -> (0 <= b)%Z -> (a + b < 2 ^ 53)%Z ->
  add (Finite (inject_Z a)) (Finite (inject_Z b)) = Finite (inject_Z (a + b)).
Proof.
  intros Ha Hb H. unfold add. apply round64_integer; [|lia].
  rewrite inject_Z_plus. apply Qeq_refl.
Qed.

Lemma fold_add_exact (l : languages_t) (acc : N) :
  (acc + sum_of_counts l < 2 ^ 53)%N ->
  fold_left add (map (fun entry => of_count (snd entry)) l)
    (Finite (inject_Z (Z.of_N acc)))
  = Finite (inject_Z (Z.of_N (acc + sum_of_counts l))).
Proof.
  revert acc. induction l as [|[lang b] l IH]; intros acc H;
    unfold sum_of_counts in *; cbn [map fold_left fold_right snd] in *.
  - rewrite N.add_0_r. reflexivity.
  - rewrite of_count_exact by lia.
    rewrite add_exact by lia.
    rewrite <- N2Z.inj_add. rewrite IH by lia.
    do 2 f_equal. lia.
Qed.

Lemma totalLanguageBytes_exact (languages : languages_t) :
  (sum_of_counts languages < 2 ^ 53)%N ->
  totalLanguageBytes languages = Finite (inject_Z (Z.of_N (sum_of_counts languages))).
Proof.
  intros H. unfold totalLanguageBytes.
  change (Finite 0) with (Finite (inject_Z (Z.of_N 0))).
  rewrite fold_add_exact by exact H. reflexivity.
Qed.

Lemma bytes_le_sum (languages : languages_t) (lang : string) (bytes : N) :
  In (lang, bytes) languages -> (bytes <= sum_of_counts languages)%N.
Proof.
  unfold sum_of_counts.
  induction languages as [|[l b] rest IH]; simpl; [tauto|].
  intros [[= -> ->]|Hin]; [lia|]. specialize (IH Hin). lia.
Qed.

(** Rounding keeps a number between two integers a double holds. *)
Lemma round64_range (q : Q) (hi : Z) :
  (0 <= q)%Q -> (q <= inject_Z hi)%Q -> (hi < 2 ^ 53)%Z ->
  exists v, round64 q = Finite v /\ (0 <= v)%Q /\ (v <= inject_Z hi)%Q.
Proof.
  intros H0 Hhi Hb.
  destruct (Qle_bool q 0) eqn:E.
  - exists 0%Q. unfold round64. rewrite E. split; [reflexivity|].
    split; [apply Qle_refl|]. eapply Qle_trans; eassumption.
  - assert (Hpos : (0 < q)%Q).
    { apply Qnot_le_lt. intro Hle. apply Qle_bool_iff in Hle. congruence. }
    destruct (round64_between q 0 hi Hpos H0 Hhi Hb) as (v & Hr & Hlo & Hv & _).
    exists v. auto.
Qed.

(** [toFixed1] picks the tenth nearest to the value. *)
Lemma toFixed1_nearest (q : Q) :
  let n := Qfloor (q * (10 # 1) + (1 # 2)) in
  (q - (1 # 20) < inject_Z n / (10 # 1) /\ inject_Z n / (10 # 1) <= q + (1 # 20))%Q.
Proof.
  intros n.
  pose proof (Qfloor_le (q * (10 # 1) + (1 # 2))) as Hle.
  pose proof (Qlt_floor (q * (10 # 1) + (1 # 2))) as Hlt.
  fold n in Hle, Hlt.
  rewrite inject_Z_plus in Hlt. change (inject_Z 1) with 1%Q in Hlt.
  split.
  - apply Qlt_shift_div_l; [reflexivity|]. lra.
  - apply Qle_shift_div_r; [reflexivity|]. lra.
Qed.

(** C9 (as amended): an empty mapping renders no row (the callback that
    divides is never run); every mapping renders one row per language;
    and whenever the byte counts have a sum that is not zero and that a
    double holds exactly (below [2^53]), the percentage of each language
    is the double [bytes / total * 100], quotient and product each rounded
    to the nearest double; it is finite, lies between 0 and 100, and is
    shown through [toFixed(1)]. *)
Theorem language_percentage_finite (languages : languages_t) :
  language_rows [] = []
  /\ map fst (language_rows languages) = map fst languages
  /\ (forall lang bytes,
        (0 < sum_of_counts languages < 2 ^ 53)%N ->
        In (lang, bytes) languages ->
        exists share q,
          round64 (inject_Z (Z.of_N bytes) / inject_Z (Z.of_N (sum_of_counts languages)))
          = Finite share
          /\ round64 (share * (100 # 1)) = Finite q
          /\ percentage_value languages bytes = Finite q
          /\ (0 <= q <= 100 # 1)%Q
          /\ In (lang, toFixed1 (Finite q)) (language_rows languages)).
Proof.
  split; [reflexivity|]. split.
  - unfold language_rows. rewrite map_map. apply map_ext. intros [l b]. reflexivity.
  - intros lang bytes [Hpos Hlt] Hin.
    pose proof (bytes_le_sum _ _ _ Hin) as Hle.
    set (total := sum_of_counts languages) in *.
    assert (Ht : (0 < inject_Z (Z.of_N total))%Q).
    { rewrite <- (Zlt_Qlt 0). lia. }
    destruct (round64_range
                (inject_Z (Z.of_N bytes) / inject_Z (Z.of_N total)) 1)
      as (share & Hs & Hs0 & Hs1).
    { apply Qle_shift_div_l; [exact Ht|]. rewrite Qmult_0_l, <- (Zle_Qle 0). lia. }
    { apply Qle_shift_div_r; [exact Ht|]. rewrite Qmult_1_l, <- Zle_Qle. lia. }
    { lia. }
    destruct (round64_range (share * (100 # 1)) 100) as (q & Hq & Hq0 & Hq1).
    { change (inject_Z 1) with 1%Q in Hs1. lra. }
    { change (inject_Z 1) with 1%Q in Hs1. change (inject_Z 100) with (100 # 1)%Q. lra. }
    { lia. }
    assert (Hv : percentage_value languages bytes = Finite q).
    { unfold percentage_value. fold total.
      rewrite totalLanguageBytes_exact by exact Hlt. fold total.
      rewrite of_count_exact by lia.
      unfold divide.
      replace (Qeq_bool (inject_Z (Z.of_N total)) 0) with false.
      2:{ symmetry. apply not_true_is_false. intro E. apply Qeq_bool_iff in E. lra. }
      rewrite Hs. unfold times. exact Hq. }
    exists share, q. split; [exact Hs|]. split; [exact Hq|]. split; [exact Hv|].
    split; [split; assumption|].
    rewrite <- Hv.
    apply (in_map (fun '(lang, bytes) =>
                     (lang, toFixed1 (percentage_value languages bytes)))) in Hin.
    exact Hin.
Qed.

(** The panel of a repository with 23 bytes of TypeScript and 57 of CSS:
    [23 / 80] is rounded below [0.2875], the product with 100 below
    [28.75], and [toFixed(1)] shows [28.7]. *)
Example language_rows_rounding :
  language_rows [("TypeScript", 23%N); ("CSS", 57%N)]
  = [("TypeScript", "28.7"); ("CSS", "71.3")].
Proof. vm_compute. reflexivity. Qed.

Example language_rows_two_thirds :
  language_rows [("TypeScript", 2%N); ("CSS", 1%N)]
  = [("TypeScript", "66.7"); ("CSS", "33.3")].
Proof. vm_compute. reflexivity. Qed.

(** Byte counts that no double holds: a count of [2^1024] is read as
    [Infinity], and [Infinity / Infinity] is [NaN]; two counts of [2^1023]
    are read exactly, their sum is [Infinity], and both rows show [0.0]. *)
Example language_rows_overflow :
  language_rows [("C", (2 ^ 1024)%N)] = [("C", "NaN")]
  /\ language_rows [("C", (2 ^ 1023)%N); ("Go", (2 ^ 1023)%N)]
     = [("C", "0.0"); ("Go", "0.0")].
Proof. vm_compute. split; reflexivity. Qed.

(** [round64] against the binary64 arithmetic of the kernel: the
    percentage [a / b * 100] is the same number for all byte counts
    [a < 40], [0 < b <= 40], and for some large ones. *)
Example round64_agrees_with_binary64 :
  forallb (fun b =>
             forallb (fun a => same_number (float_percentage a b) (model_percentage a b))
                     (range 40 0))
          (range 40 1) = true
  /\ forallb (fun '(a, b) => same_number (float_percentage a b) (model_percentage a b))
       [ (1, 9007199254740991); (9007199254740991, 9007199254740990);
         (123456789, 987654321987); (4611686018427387903, 7);
         (7, 4611686018427387903); (9007199254740993, 3) ]%Z = true.
Proof. vm_compute. split; reflexivity. Qed.

End LanguageFacts.

(** The row of TypeScript in a repository with 23 bytes of TypeScript and
    57 of CSS. *)
Lemma language_percentage_finite_witness :
  let languages : RepoDetail.languages_t := [("TypeScript", 23%N); ("CSS", 57%N)] in
  exists share q,
    RepoDetail.round64
      (inject_Z (Z.of_N 23) / inject_Z (Z.of_N (RepoDetail.sum_of_counts languages)))
    = RepoDetail.Finite share
    /\ RepoDetail.round64 (share * (100 # 1)) = RepoDetail.Finite q
    /\ RepoDetail.percentage_value languages 23 = RepoDetail.Finite q
    /\ (0 <= q <= 100 # 1)%Q
    /\ In ("TypeScript", RepoDetail.toFixed1 (RepoDetail.Finite q))
          (RepoDetail.language_rows languages).
Proof.
  exact (proj2 (proj2 (language_percentage_finite
                         [("TypeScript", 23%N); ("CSS", 57%N)]))
           "TypeScript" 23%N (conj eq_refl eq_refl) (or_introl eq_refl)).
Defined.

(** C9 (as stated) fails: the mapping [{HTML: 0}] is not empty, its byte
    counts sum to zero, and the percentage of its one row is [0 / 0 * 100],
    which is [NaN]. *)
Lemma language_percentage_nan :
  let languages : RepoDetail.languages_t := [("HTML", 0%N)] in
  languages <> []
  /\ RepoDetail.is_finite (RepoDetail.percentage_value languages 0) = false
  /\ RepoDetail.language_rows languages = [("HTML", "NaN")].
Proof. split; [discriminate|]. split; reflexivity. Qed.

(** ** The scoring and enhancement engine *)

Section SubstringFacts.
Import Engine.

Lemma is_prefix_spec (p s : text) :
  is_prefix p s = true <-> exists rest, s = (p ++ rest)%list.
Proof.
  revert s. induction p as [|a p IH]; intros s; simpl.
  - split; [intros _; exists s; reflexivity|reflexivity].
  - destruct s as [|b s]; simpl.
    + split; [discriminate|intros [rest H]; discriminate H].
    + rewrite andb_true_iff, IH. split.
      * intros [Hab [rest ->]]. apply Ascii.eqb_eq in Hab. subst b.
        exists rest. reflexivity.
      * intros [rest [= -> ->]]. split; [apply Ascii.eqb_refl|].
        exists rest. reflexivity.
Qed.

Lemma contains_spec (s needle : text) :
  contains s needle = true <-> exists pre post, s = (pre ++ needle ++ post)%list.
Proof.
  induction s as [|c s IH].
  - simpl. rewrite orb_false_r, is_prefix_spec. split.
    + intros [rest H]. exists [], rest. exact H.
    + intros (pre & post & H). symmetry in H.
      apply app_eq_nil in H as [-> H]. exists post. symmetry. exact H.
  - simpl. rewrite orb_true_iff, is_prefix_spec, IH. split.
    + intros [[rest H]|(pre & post & H)].
      * exists [], rest. exact H.
      * exists (c :: pre), post. simpl. rewrite H. reflexivity.
    + intros (pre & post & H). destruct pre as [|d pre]; simpl in H.
      * left. exists post. exact H.
      * right. injection H as _ H. exists pre, post. exact H.
Qed.

Lemma contains_infix (a s b needle : text) :
  contains s needle = true -> contains (a ++ s ++ b)%list needle = true.
Proof.
  rewrite !contains_spec. intros (pre & post & ->).
  exists (a ++ pre)%list, (post ++ b)%list. rewrite <- !app_assoc. reflexivity.
Qed.

Lemma lower_app (a b : text) : lower (a ++ b)%list = (lower a ++ lower b)%list.
Proof. apply map_app. Qed.

Lemma recognized_infix (a s b heading : text) :
  recognized s heading = true -> recognized (a ++ s ++ b)%list heading = true.
Proof.
  unfold recognized. rewrite !lower_app. apply contains_infix.
Qed.

Lemma recognized_self (a heading b : text) :
  recognized (a ++ heading ++ b)%list heading = true.
Proof.
  apply recognized_infix. unfold recognized. apply contains_spec.
  exists [], []. rewrite app_nil_r. reflexivity.
Qed.

End SubstringFacts.

Section TierFacts.
Import Engine.

Variable R : rules.


Lemma filter_length_bound {A} (f : A -> bool) (l : list A) :
  List.length (List.filter f l) <= List.length l.
Proof.
  induction l as [|x l IH]; simpl; [lia|]. destruct (f x); simpl; lia.
Qed.



Lemma synthesize_recognized (repo_name heading : text) :
  recognized (synthesize R repo_name heading) heading = true.
Proof. unfold synthesize. apply recognized_self. Qed.

Lemma concat_map_In {A} (f : A -> text) (l : list A) (x : A) :
  In x l -> exists pre post, List.concat (map f l) = (pre ++ f x ++ post)%list.
Proof.
  intros H. apply in_split in H as (l1 & l2 & ->).
  exists (List.concat (map f l1)), (List.concat (map f l2)).
  rewrite map_app, concat_app. reflexivity.
Qed.

(** Every catalog heading is recognized in the generator's output. *)
Lemma generate_covers (existing repo_name heading : text) :
  In heading (catalog R) ->
  recognized (enhanced_readme (generate R existing repo_name)) heading = true.
Proof.
  intros Hin. unfold generate. simpl.
  destruct (recognized existing heading) eqn:Hrec.
  - rewrite <- (app_nil_l existing), <- app_assoc.
    apply recognized_infix. exact Hrec.
  - assert (Hmiss : In heading (find_missing_sections R (Some existing))).
    { unfold find_missing_sections. destruct existing as [|c rest]; [exact Hin|].
      simpl. apply filter_In. split; [exact Hin|]. rewrite Hrec. reflexivity. }
    destruct (concat_map_In (synthesize R repo_name) _ _ Hmiss) as (pre & post & ->).
    rewrite app_assoc. apply recognized_infix. apply synthesize_recognized.
Qed.

Lemma filter_nil_iff {A} (f : A -> bool) (l : list A) :
  (forall x, In x l -> f x = false) -> List.filter f l = [].
Proof.
  induction l as [|x l IH]; intros H; simpl; [reflexivity|].
  rewrite (H x (or_introl eq_refl)). apply IH. intros y Hy. apply H. right. exact Hy.
Qed.

(** C6: running the generator on its own output finds no missing section:
    the improvements list of the second run is empty, for every README
    text and repository name. *)
Theorem generate_idempotent (existing repo_name : text) :
  improvements
    (generate R (enhanced_readme (generate R existing repo_name)) repo_name) = [].
Proof.
  set (out := enhanced_readme (generate R existing repo_name)).
  assert (Hcov : forall h, In h (catalog R) -> recognized out h = true)
    by (intros h; apply generate_covers).
  unfold generate at 1. simpl. unfold find_missing_sections.
  destruct (content_of (Some out)) as [c|] eqn:Hc.
  - assert (c = out) as ->.
    { destruct out; simpl in Hc; [discriminate|]. injection Hc as <-. reflexivity. }
    rewrite filter_nil_iff; [reflexivity|].
    intros h Hh. rewrite (Hcov h Hh). reflexivity.
  - destruct (catalog R) as [|h rest] eqn:Hcat; [reflexivity|].
    exfalso. assert (Hout : out = []).
    { destruct out; [reflexivity|discriminate Hc]. }
    subst out. unfold generate in Hout. simpl in Hout.
    apply app_eq_nil in Hout as [-> Hout].
    unfold find_missing_sections in Hout. simpl in Hout. rewrite Hcat in Hout.
    simpl in Hout. discriminate Hout.
Qed.

End TierFacts.

(** The fourth scenario of the specification: enhancing an empty README
    for repository [foo] yields six improvements, and a second run none. *)
Example generate_empty_readme :
  let first := Engine.generate Engine.reference_rules [] (Engine.txt "foo") in
  List.length (Engine.improvements first) = 6
  /\ Engine.improvements
       (Engine.generate Engine.reference_rules (Engine.enhanced_readme first)
          (Engine.txt "foo")) = [].
Proof. vm_compute. split; reflexivity. Qed.



Section ScoreFacts.
Import Engine.
Local Open Scope Z_scope.

Variable R : rules.

Lemma clamp_bounds (x : Z) : 0 <= clamp 0 100 x <= 100.
Proof. unfold clamp. lia. Qed.

Lemma clamp_mono (x y : Z) : x <= y -> clamp 0 100 x <= clamp 0 100 y.
Proof. unfold clamp. lia. Qed.

(** The instant of evaluation enters the report only through the time
    elapsed since the last update. *)
Lemma score_factor_elapsed_time (now now' t' : Z) (m : RepositoryMetadata) :
  now' - t' = now - last_update m ->
  forall f, score_factor R now' (updated_at m t') f = score_factor R now m f.
Proof.
  intros E f. unfold score_factor, updated_at, has_description. simpl.
  rewrite E. reflexivity.
Qed.


Lemma overall_score_bounds (now : Z) (ms : list RepositoryMetadata)
  (repos stars_total : N) :
  0 <= overall_score (analyze_portfolio R now ms repos stars_total) <= 100.
Proof. apply clamp_bounds. Qed.

Lemma analyze_portfolio_coherent (now : Z) (ms : list RepositoryMetadata)
  (repos stars_total : N) :
  coherent R (analyze_portfolio R now ms repos stars_total).
Proof.
  split; [|reflexivity]. simpl. apply Forall_map, Forall_forall.
  intros m _. reflexivity.
Qed.

Lemma simulate_ge (scores : factor -> Z) (f : factor) :
  scores f <= simulate R scores f.
Proof.
  unfold simulate. destruct (Z.ltb_spec (scores f) (good_cutoff R f)); lia.
Qed.

Lemma sum_Z_mono {A} (f g : A -> Z) (l : list A) :
  (forall x, f x <= g x) -> sum_Z (map f l) <= sum_Z (map g l).
Proof.
  intros H. induction l as [|x l IH]; simpl; [lia|]. specialize (H x). lia.
Qed.

Lemma mean_mono {A} (f g : A -> Z) (l : list A) :
  (forall x, f x <= g x) -> mean (map f l) <= mean (map g l).
Proof.
  intros H. destruct l as [|x l]; [simpl; lia|].
  unfold mean. cbn [map]. cbn [List.length]. rewrite !length_map.
  apply Z.div_le_mono; [lia|].
  apply (sum_Z_mono f g (x :: l) H).
Qed.

Section NonNegativeWeights.

Hypothesis weights_nonneg : forall f, 0 <= weight R f.

Lemma weighted_sum_mono (s1 s2 : factor -> Z) :
  (forall f, s1 f <= s2 f) -> weighted_sum R s1 <= weighted_sum R s2.
Proof.
  intros H. unfold weighted_sum. induction all_factors as [|f l IH]; simpl; [lia|].
  pose proof (weights_nonneg f). specialize (H f). nia.
Qed.

Lemma score_of_simulate (scores : factor -> Z) :
  score_of R scores <= score_of R (simulate R scores).
Proof.
  unfold score_of. apply clamp_mono, weighted_sum_mono. apply simulate_ge.
Qed.

(** C4: for every PortfolioReport (one that satisfies the invariant of
    the data model, as every report of the aggregator does), the plan's
    potential score is at least its current score; the potential score is
    the aggregation re-run on the simulated factor scores, and no maximum
    with the current score is taken. *)
Theorem potential_ge_current (p : PortfolioReport) :
  coherent R p ->
  current_score (plan R p) <= potential_score (plan R p)
  /\ potential_score (plan R p)
     = aggregate_score R
         (map (fun r => score_of R (simulate R (factor_scores r))) (repositories p))
         (total_repos p) (total_stars p).
Proof.
  intros [Hrepos Hoverall]. split; [|reflexivity].
  simpl. rewrite Hoverall.
  rewrite (map_ext_Forall _ _ Hrepos).
  unfold aggregate_score. apply clamp_mono, Z.add_le_mono_r.
  apply (mean_mono (fun r => score_of R (factor_scores r))
                   (fun r => score_of R (simulate R (factor_scores r)))).
  intros r. apply score_of_simulate.
Qed.

End NonNegativeWeights.

End ScoreFacts.

(** A repository without README or description, untouched for three
    years: the plan's potential score exceeds the current one. *)
Lemma potential_ge_current_witness :
  let m := {| Engine.name := Engine.txt "foo"; Engine.description := None;
              Engine.languages := []; Engine.stars := 0; Engine.forks := 0;
              Engine.open_issues := 0; Engine.last_update := 0;
              Engine.is_private := false; Engine.readme := None;
              Engine.url := Engine.txt "https://example.org/foo" |} in
  let report := Engine.analyze_portfolio Engine.reference_rules 1100 [m] 1 0 in
  (forall f, (0 <= Engine.weight Engine.reference_rules f)%Z)
  /\ Engine.coherent Engine.reference_rules report
  /\ Engine.current_score (Engine.plan Engine.reference_rules report) = 10%Z
  /\ Engine.potential_score (Engine.plan Engine.reference_rules report) = 75%Z
  /\ (Engine.current_score (Engine.plan Engine.reference_rules report)
      <= Engine.potential_score (Engine.plan Engine.reference_rules report))%Z.
Proof.
  intros m report.
  assert (Hw : forall f, (0 <= Engine.weight Engine.reference_rules f)%Z)
    by (intros []; simpl; lia).
  assert (Hc : Engine.coherent Engine.reference_rules report)
    by apply analyze_portfolio_coherent.
  split; [exact Hw|]. split; [exact Hc|].
  split; [reflexivity|]. split; [reflexivity|].
  exact (proj1 (potential_ge_current Engine.reference_rules Hw report Hc)).
Defined.


(** The first scenario of the specification: no README, no stars, no
    forks, last updated more than two years ago. *)
Example scenario_stale_repository :
  let m := {| Engine.name := Engine.txt "foo"; Engine.description := None;
              Engine.languages := []; Engine.stars := 0; Engine.forks := 0;
              Engine.open_issues := 0; Engine.last_update := 0;
              Engine.is_private := false; Engine.readme := None;
              Engine.url := Engine.txt "https://example.org/foo" |} in
  let report := Engine.score_repository Engine.reference_rules 800 m in
  Engine.readme_quality report = Engine.none
  /\ (Engine.health_score report < 25)%Z
  /\ In Engine.ReadmeTier (Engine.suggestions report)
  /\ In Engine.Recency (Engine.suggestions report).
Proof. vm_compute. repeat split; auto. Qed.

(* ===================================================================== *)
(** * Part III: further properties of the code                            *)
(* ===================================================================== *)

(** ** The API client: requests and outcomes *)

Section RequestFacts.
Import JS Api.

Variable VITE_API_URL : option string.

Lemma append_cancel_l (a x y : string) : a ++ x = a ++ y -> x = y.
Proof.
  induction a as [|c a IH]; simpl; intros H; [exact H|].
  injection H as H. apply IH. exact H.
Qed.

(** X1: what an operation hands to [fetch] (the URL text, the method, the
    headers and the body) tells which operation was called and with which
    arguments, with one exception: [analyzeRepo] pastes the user name and
    the repository name into the path unescaped, so two calls hand the
    same URL text to [fetch] exactly when [username/repo] reads the
    same. *)
Theorem request_of_identifies_call (c1 c2 : call) :
  request_of VITE_API_URL c1 = request_of VITE_API_URL c2
  <-> (c1 = c2
       \/ exists u1 r1 u2 r2,
            c1 = AnalyzeRepo u1 r1 /\ c2 = AnalyzeRepo u2 r2
            /\ u1 ++ "/" ++ r1 = u2 ++ "/" ++ r2).
Proof.
  split.
  - destruct c1, c2; simpl; intros H; injection H; clear H; intros;
      try discriminate;
      repeat match goal with
             | H : _ ++ _ = _ ++ _ |- _ => apply append_cancel_l in H
             end;
      try (exfalso; congruence);
      repeat match goal with
             | H : String _ _ = String _ _ |- _ => injection H; clear H; intros
             end;
      subst; auto.
    right. do 4 eexists. repeat split. assumption.
  - intros [->|(u1 & r1 & u2 & r2 & -> & -> & H)]; [reflexivity|].
    simpl in *. rewrite H. reflexivity.
Qed.

Example analyzeRepo_unescaped_slash :
  request_of VITE_API_URL (AnalyzeRepo "a/b" "c")
  = request_of VITE_API_URL (AnalyzeRepo "a" "b/c").
Proof. reflexivity. Qed.

(** X2: how a call settles tells what happened.  Data is returned only
    from an ok response and is its JSON body; [Error] is thrown only for a
    response that is not ok; the other rejections are a failed [fetch], an
    ok response that is not JSON, and an error body that is [null]. *)
Theorem perform_outcome_inversion (c : call) (net : Network) (log : list Request) :
  (forall j, fst (perform VITE_API_URL c net log) = Resolved j ->
     exists r, net (request_of VITE_API_URL c) = Some r
               /\ ok r = true /\ json_body r = Some j)
  /\ (forall message, fst (perform VITE_API_URL c net log) = Rejected (Error message) ->
       exists r, net (request_of VITE_API_URL c) = Some r /\ ok r = false)
  /\ (fst (perform VITE_API_URL c net log) = Rejected TypeErrorFetch ->
       net (request_of VITE_API_URL c) = None)
  /\ (fst (perform VITE_API_URL c net log) = Rejected SyntaxError ->
       exists r, net (request_of VITE_API_URL c) = Some r
                 /\ ok r = true /\ json_body r = None)
  /\ (fst (perform VITE_API_URL c net log) = Rejected TypeErrorNullProperty ->
       exists r, net (request_of VITE_API_URL c) = Some r
                 /\ ok r = false /\ json_body r = Some JNull).
Proof.
  rewrite perform_unfold. unfold bind, fetch, catch, response_json, detail_of, ret, throw.
  destruct (net (request_of VITE_API_URL c)) as [r|]; simpl.
  2:{ repeat split; intros; discriminate. }
  destruct (ok r) eqn:Hok; simpl.
  - destruct (json_body r) as [j|] eqn:Hb; simpl;
      repeat split; intros; try discriminate; eauto.
    injection H as <-. eauto.
  - destruct (json_body r) as [j|] eqn:Hb; simpl.
    + destruct j; simpl; repeat split; intros; try discriminate; eauto;
        unfold new_Error, or_else in *;
        repeat match goal with
               | H : context [if ?b then _ else _] |- _ => destruct b; simpl in H
               | H : context [match ?v with VUndefined => _ | _ => _ end] |- _ =>
                   destruct v; simpl in H
               end; try discriminate.
    + repeat split; intros; try discriminate; eauto.
Qed.

End RequestFacts.

(** ** ErrorBoundary: what a trace does to the instance *)

Section BoundaryTraceFacts.
Import ErrorBoundary BoundaryTrace.

Lemma run_from (evs : list event) (i final : instance) :
  run i evs = Some final ->
  reported final = reported i + throws evs
  /\ hasError (state final) = hasError (state i) || (0 <? throws evs)%nat.
Proof.
  revert i. induction evs as [|ev evs IH]; intros i; simpl.
  - intros [= <-]. unfold throws. simpl. rewrite orb_false_r. split; [lia|reflexivity].
  - destruct ev; unfold throws in *; simpl.
    + intros H. apply IH in H as [Hr He]. simpl in *. rewrite Hr, He.
      split; [lia|]. rewrite orb_true_r. reflexivity.
    + intros H. apply IH in H. exact H.
    + destruct (hasError (state i)) eqn:Hi; [discriminate|].
      intros H. apply IH in H. rewrite Hi in H. exact H.
Qed.

(** X3: as long as the boundary lives, [componentDidCatch] has written to
    the console once for every error a descendant threw, and the boundary
    is in its error state exactly when at least one was reported. *)
Theorem every_error_reported (evs : list event) (final : instance) :
  run mount evs = Some final ->
  reported final = throws evs
  /\ (hasError (state final) = true <-> 0 < reported final).
Proof.
  intros H. apply run_from in H as [Hr He]. simpl in *.
  split; [exact Hr|]. rewrite He, Hr.
  destruct (Nat.ltb_spec 0 (throws evs)); split; intros; try lia; try discriminate;
    reflexivity.
Qed.

Lemma every_error_reported_witness :
  let final := {| state := {| hasError := true |}; reported := 2 |} in
  reported final = throws [DescendantThrows; Rerender; DescendantThrows]
  /\ (hasError (state final) = true <-> 0 < reported final).
Proof.
  exact (every_error_reported [DescendantThrows; Rerender; DescendantThrows]
           {| state := {| hasError := true |}; reported := 2 |} eq_refl).
Defined.

(** X4: the page is reloaded only from the fallback: a trace that ends
    the instance has a click on "Reload Page" that comes after an error of
    a descendant. *)
Theorem reload_only_after_error (evs : list event) :
  run mount evs = None ->
  exists before after,
    evs = (before ++ ReloadClicked :: after)%list
    /\ In DescendantThrows before.
Proof.
  assert (G : forall evs i, run i evs = None ->
            exists before after,
              evs = (before ++ ReloadClicked :: after)%list
              /\ (hasError (state i) = true \/ In DescendantThrows before)).
  { clear evs. induction evs as [|ev evs IH]; intros i; simpl; [discriminate|].
    destruct ev; simpl.
    - intros H. apply IH in H as (b & a & -> & _).
      exists (DescendantThrows :: b), a. split; [reflexivity|]. right. left. reflexivity.
    - intros H. apply IH in H as (b & a & -> & Hb).
      exists (Rerender :: b), a. split; [reflexivity|].
      destruct Hb as [Hb|Hb]; [left; exact Hb|right; right; exact Hb].
    - destruct (hasError (state i)) eqn:Hi.
      + intros _. exists [], evs. split; [reflexivity|]. left. reflexivity.
      + intros H. apply IH in H as (b & a & -> & Hb).
        exists (ReloadClicked :: b), a. split; [reflexivity|].
        destruct Hb as [Hb|Hb]; [congruence|right; right; exact Hb]. }
  intros H. apply G in H as (b & a & -> & [Hb|Hb]); [discriminate Hb|].
  exists b, a. split; [reflexivity|exact Hb].
Qed.

Lemma reload_only_after_error_witness :
  exists before after,
    [Rerender; DescendantThrows; ReloadClicked; Rerender]
    = (before ++ ReloadClicked :: after)%list
    /\ In DescendantThrows before.
Proof.
  exact (reload_only_after_error
           [Rerender; DescendantThrows; ReloadClicked; Rerender] eq_refl).
Defined.

(** X5: until a descendant throws, every render of the boundary returns
    its children and the instance stays as it was mounted. *)
Theorem children_until_error {A} (children : A) (evs : list event) :
  throws evs = 0 ->
  renders children mount evs = map (fun _ => ChildrenOf children) evs
  /\ run mount evs = Some mount.
Proof.
  unfold throws. induction evs as [|ev evs IH]; simpl; [auto|].
  destruct ev; simpl; [discriminate| |]; intros H; destruct (IH H) as [Hr Hm];
    rewrite Hr, Hm; split; reflexivity.
Qed.

Lemma children_until_error_witness :
  renders tt mount [Rerender; ReloadClicked; Rerender]
  = map (fun _ => ChildrenOf tt) [Rerender; ReloadClicked; Rerender]
  /\ run mount [Rerender; ReloadClicked; Rerender] = Some mount.
Proof.
  exact (children_until_error tt [Rerender; ReloadClicked; Rerender] eq_refl).
Defined.

End BoundaryTraceFacts.

(** ** Homepage: the target of the navigation *)

Section TargetFacts.
Import JS.

(** X6: when the form navigates, the target is [/dashboard/] followed by
    a non-empty name that neither starts nor ends with white space and
    that is the submitted text minus white space at both ends; submitting
    that name again leads to the same target. *)
Theorem handleAnalyze_target (username target : utf16) :
  Homepage.navigated (Homepage.handleAnalyze username) = Some target ->
  exists name c rest before after,
    target = (lit "/dashboard/" ++ name)%list
    /\ name = c :: rest
    /\ is_white_space c = false
    /\ is_white_space (last name c) = false
    /\ username = (before ++ name ++ after)%list
    /\ forallb is_white_space before = true
    /\ forallb is_white_space after = true
    /\ Homepage.navigated (Homepage.handleAnalyze name) = Some target.
Proof.
  unfold Homepage.handleAnalyze. simpl.
  destruct (trim username) as [|c rest] eqn:Ht; simpl; [discriminate|].
  intros [= <-].
  destruct (trim_ends username c rest Ht) as [Hc Hl].
  destruct (trim_infix username) as (before & after & Hu & Hb & Ha).
  rewrite Ht in Hu.
  exists (c :: rest), c, rest, before, after.
  repeat split; try assumption.
  pose proof (trim_idempotent username) as Hi. rewrite Ht in Hi.
  rewrite Hi. reflexivity.
Qed.

Lemma handleAnalyze_target_witness :
  exists name c rest before after,
    lit "/dashboard/tj" = (lit "/dashboard/" ++ name)%list
    /\ name = c :: rest
    /\ is_white_space c = false
    /\ is_white_space (last name c) = false
    /\ lit "  tj " = (before ++ name ++ after)%list
    /\ forallb is_white_space before = true
    /\ forallb is_white_space after = true
    /\ Homepage.navigated (Homepage.handleAnalyze name) = Some (lit "/dashboard/tj").
Proof.
  exact (handleAnalyze_target (lit "  tj ") (lit "/dashboard/tj") eq_refl).
Defined.

(** X7: an example button and the form agree on every name that has no
    white space at its ends; the button, unlike the form, navigates for
    any text, a blank one included. *)
Theorem handleExampleClick_agrees (example : utf16) :
  (trim example = example -> example <> [] ->
   Homepage.navigated (Homepage.handleExampleClick example)
   = Homepage.navigated (Homepage.handleAnalyze example))
  /\ Homepage.navigated (Homepage.handleExampleClick example)
     = Some (lit "/dashboard/" ++ example)%list
  /\ Forall (fun e => trim (lit e) = lit e /\ lit e <> [])
       ["torvalds"; "gaearon"; "tj"; "sindresorhus"].
Proof.
  split; [|split].
  - intros Ht Hne. unfold Homepage.handleAnalyze, Homepage.handleExampleClick. simpl.
    rewrite Ht. destruct example; [contradiction|reflexivity].
  - reflexivity.
  - repeat constructor; discriminate.
Qed.

End TargetFacts.

(** ** Dashboard: the enhancement plan and the requests for it *)

Section PlanFacts.
Import JS Dashboard.

Variable VITE_API_URL : option string.
Variable net : Api.Network.

(** How a call settles does not depend on what was sent before. *)
Lemma perform_outcome_log (c : Api.call) (log : list Api.Request) :
  fst (Api.perform VITE_API_URL c net log) = fst (Api.perform VITE_API_URL c net []).
Proof.
  rewrite !perform_unfold.
  unfold Api.bind, Api.fetch, Api.catch, Api.response_json.
  destruct (net _) as [r|]; [|reflexivity].
  destruct (Api.ok r); simpl; [destruct (Api.json_body r); reflexivity|].
  destruct (Api.json_body r) as [j|]; [|reflexivity].
  destruct j; reflexivity.
Qed.

Lemma plan_invariant_mounted (username : option string) :
  DashboardPage.plan_invariant VITE_API_URL net username (mounted username).
Proof.
  repeat split; simpl; try constructor; intros; discriminate.
Qed.

Lemma Forall_nth_error {A} (P : A -> Prop) (l : list A) (i : nat) (x : A) :
  Forall P l -> nth_error l i = Some x -> P x.
Proof.
  intros H Hn. rewrite Forall_forall in H. apply H. eapply nth_error_In. exact Hn.
Qed.

Lemma plan_invariant_step (username : option string) (w : World) (ev : event) :
  DashboardPage.plan_invariant VITE_API_URL net username w ->
  DashboardPage.plan_invariant VITE_API_URL net username (step VITE_API_URL net w ev).
Proof.
  intros Hinv. pose proof Hinv as (Hu & Hsome & Hnone & Hshow).
  destruct ev as [|i]; simpl.
  - unfold handleLoadEnhancement. rewrite Hu.
    remember (username_missing username) as missing eqn:Hm.
    destruct missing; simpl; [exact Hinv|].
    remember (nullable_truthy (enhancement (component w))) as loaded eqn:Hl.
    destruct loaded; simpl; [exact Hinv|].
    destruct username as [u|]; [|discriminate Hm].
    destruct (Hsome u eq_refl) as (Ha & Hs & Hd).
    pose proof (perform_sends_once VITE_API_URL (Api.EnhancePortfolio u) net (sent w)) as Hsent.
    pose proof (perform_outcome_log (Api.EnhancePortfolio u) (sent w)) as Hout.
    simpl in Hsent, Hout.
    destruct (Api.enhancePortfolio VITE_API_URL u net (sent w)) as [outcome sent'].
    simpl in Hsent, Hout. subst sent'.
    split; [exact Hu|]. split; [|split; [|exact Hshow]].
    + intros u' [= <-]. split; [|split; [|exact Hd]].
      * apply Forall_app. split; [exact Ha|]. constructor; [exact Hout|constructor].
      * apply Forall_app. split; [exact Hs|]. constructor; [reflexivity|constructor].
    + intros Hm'. rewrite Hm' in Hm. discriminate Hm.
  - remember (nth_error (awaiting w) i) as settled eqn:Hn. symmetry in Hn.
    destruct settled as [o|]; [|exact Hinv].
    destruct username as [u|].
    2:{ destruct (Hnone eq_refl) as (_ & Ha & _). rewrite Ha in Hn.
        destruct i; discriminate Hn. }
    destruct (Hsome u eq_refl) as (Ha & Hs & Hd).
    pose proof (Forall_nth_error _ _ _ _ Ha Hn) as Ho.
    pose proof (Forall_remove_nth _ i _ Ha) as Ha'.
    assert (Hnone' : username_missing (Some u) = true -> False).
    { intros Hm. destruct (Hnone Hm) as (_ & Hnil & _).
      rewrite Hnil in Hn. destruct i; discriminate Hn. }
    destruct o as [data|e]; simpl.
    + split; [exact Hu|]. split; [|split].
      * intros u' [= <-]. split; [exact Ha'|]. split; [exact Hs|].
        intros d [= <-]. symmetry. exact Ho.
      * intros Hm. destruct (Hnone' Hm).
      * intros _. exists data. reflexivity.
    + split; [exact Hu|]. split; [|split; [|exact Hshow]].
      * intros u' [= <-]. split; [exact Ha'|]. split; [exact Hs|exact Hd].
      * intros Hm. destruct (Hnone' Hm).
Qed.

Lemma plan_invariant_run (username : option string) (evs : list event) (w : World) :
  DashboardPage.plan_invariant VITE_API_URL net username w ->
  DashboardPage.plan_invariant VITE_API_URL net username (run VITE_API_URL net w evs).
Proof.
  unfold run. revert w. induction evs as [|ev evs IH]; intros w H; simpl; [exact H|].
  apply IH, plan_invariant_step, H.
Qed.

(** X8: as long as the route keeps its user name, whatever is clicked and
    in whichever order the answers arrive, what [enhancement] has been
    set to is the JSON body of an ok response to the request for that
    user, never anything taken from a failed response; and
    [showEnhancement] is true only when such a body has been stored (a
    body of [null] included, which leaves [enhancement] falsy). *)
Theorem enhancement_provenance (username : string) (evs : list event) :
  let w := run VITE_API_URL net (mounted (Some username)) evs in
  (forall d, enhancement (component w) = Some d ->
     exists r,
       net (Api.request_of VITE_API_URL (Api.EnhancePortfolio username)) = Some r
       /\ Api.ok r = true /\ Api.json_body r = Some d)
  /\ (showEnhancement (component w) = true ->
       exists r d,
         net (Api.request_of VITE_API_URL (Api.EnhancePortfolio username)) = Some r
         /\ Api.ok r = true /\ Api.json_body r = Some d
         /\ enhancement (component w) = Some d).
Proof.
  intros w.
  destruct (plan_invariant_run (Some username) evs _
              (plan_invariant_mounted (Some username))) as (_ & Hsome & _ & Hshow).
  fold w in Hsome, Hshow.
  destruct (Hsome username eq_refl) as (_ & _ & Hd).
  assert (Hbody : forall d, enhancement (component w) = Some d ->
            exists r,
              net (Api.request_of VITE_API_URL (Api.EnhancePortfolio username)) = Some r
              /\ Api.ok r = true /\ Api.json_body r = Some d).
  { intros d He. specialize (Hd d He).
    change (Api.enhancePortfolio VITE_API_URL username net [])
      with (Api.perform VITE_API_URL (Api.EnhancePortfolio username) net []) in Hd.
    rewrite perform_unfold in Hd.
    unfold Api.bind, Api.fetch, Api.catch, Api.response_json, Api.detail_of,
      Api.ret, Api.throw in Hd.
    destruct (net _) as [r|]; simpl in Hd; [|discriminate].
    exists r. split; [reflexivity|].
    destruct (Api.ok r); simpl in Hd.
    - destruct (Api.json_body r); simpl in Hd; [|discriminate].
      injection Hd as <-. split; reflexivity.
    - exfalso. destruct (Api.json_body r) as [j|]; simpl in Hd; [|discriminate].
      destruct j; simpl in Hd; discriminate. }
  split; [exact Hbody|].
  intros Hs. destruct (Hshow Hs) as (d & He).
  destruct (Hbody d He) as (r & Hr & Hok & Hj).
  exists r, d. auto.
Qed.

(** A server that answers the plan request with [null]: the panel is
    switched on while [enhancement] is still falsy, and the next click
    fetches again. *)
Example enhancement_null_body :
  let net' : Api.Network :=
    fun _ => Some {| Api.ok := true; Api.status := 200; Api.json_body := Some JNull |} in
  let w := run None net' (mounted (Some "octocat"))
             [PlanButtonClicked; PromiseSettles 0] in
  showEnhancement (component w) = true
  /\ nullable_truthy (enhancement (component w)) = false
  /\ List.length (sent (step None net' w PlanButtonClicked)) = 2.
Proof. vm_compute. repeat split. Qed.

(** X9: as long as the route keeps the user name the dashboard was
    mounted with, the enhancement handler sends nothing but the request
    [POST /enhance/portfolio?username=<username>] for that user, and
    nothing at all without a user name. *)
Theorem enhancement_requests (username : option string) (evs : list event) :
  let w := run VITE_API_URL net (mounted username) evs in
  match username with
  | Some u =>
      if String.eqb u "" then sent w = []
      else Forall (fun rq => rq = Api.request_of VITE_API_URL (Api.EnhancePortfolio u))
                  (sent w)
  | None => sent w = []
  end.
Proof.
  intros w.
  destruct (plan_invariant_run username evs _ (plan_invariant_mounted username))
    as (_ & Hsome & Hnone & _).
  fold w in Hsome, Hnone.
  destruct username as [u|]; simpl in *.
  - destruct (String.eqb u "") eqn:E.
    + apply Hnone. reflexivity.
    + apply (Hsome u eq_refl).
  - apply Hnone. reflexivity.
Qed.

End PlanFacts.

(** ** Dashboard: loading the analysis *)

Section LoadFacts.
Import JS Dashboard DashboardPage.

Variable VITE_API_URL : option string.
Variable net : Api.Network.

(** X10: which return the dashboard reaches once the first [analyzeUser]
    has settled.  It goes on to the markup of the portfolio, built from
    the body, exactly when the response was ok and its JSON body is
    truthy; every failure of the call, whatever its cause and whatever
    [detail] the server sent, shows the failure card with the same fixed
    message; an ok response with a falsy body shows the failure card with
    no message.  Until then the spinner is shown. *)
Theorem dashboard_after_first_load (username : string) :
  username <> "" ->
  let p := mount VITE_API_URL net (Some username) in
  render (component (world p)) = Spinner
  /\ render (component (world (step VITE_API_URL net p (AnalysisSettles 0)))) =
     match net (Api.request_of VITE_API_URL (Api.AnalyzeUser username)) with
     | Some r =>
         if Api.ok r then
           match Api.json_body r with
           | Some j => if json_truthy j then PortfolioMarkup j None else AnalysisFailed None
           | None => AnalysisFailed (Some failure_message)
           end
         else AnalysisFailed (Some failure_message)
     | None => AnalysisFailed (Some failure_message)
     end.
Proof.
  intros Hne p. subst p. unfold mount, fetchAnalysis. simpl.
  destruct (String.eqb_spec username "") as [->|_]; [contradiction|].
  change (Api.analyzeUser VITE_API_URL username net [])
    with (Api.perform VITE_API_URL (Api.AnalyzeUser username) net []).
  rewrite perform_unfold.
  unfold Api.bind, Api.fetch, Api.catch, Api.response_json, Api.detail_of,
    Api.ret, Api.throw.
  destruct (net _) as [r|]; simpl; [|split; reflexivity].
  destruct (Api.ok r); simpl.
  - destruct (Api.json_body r) as [j|]; simpl; [|split; reflexivity].
    split; [reflexivity|]. unfold render. simpl. destruct (json_truthy j); reflexivity.
  - destruct (Api.json_body r) as [j|]; simpl; [|split; reflexivity].
    destruct j; simpl; split; reflexivity.
Qed.

Lemma step_without_username (p : Page) (ev : event) :
  is_route_change ev = false ->
  username_missing (username (component (world p))) = true ->
  awaiting (world p) = [] -> loads p = [] ->
  step VITE_API_URL net p ev = p.
Proof.
  intros Hev Hu Ha Hl. destruct ev as [u|i|ev]; simpl in *; [discriminate| |].
  - rewrite Hl. destruct i; reflexivity.
  - destruct p as [w l]. simpl in *. f_equal. destruct ev as [|i]; simpl.
    + unfold handleLoadEnhancement. rewrite Hu. reflexivity.
    + rewrite Ha. destruct i; reflexivity.
Qed.

(** X11: without a user name in the route the effect returns before it
    does anything: as long as the route does not change, the dashboard
    keeps showing the spinner and sends no request, whatever is clicked. *)
Theorem dashboard_without_username (username : option string) (evs : list event) :
  username_missing username = true ->
  forallb (fun ev => negb (is_route_change ev)) evs = true ->
  let p := run VITE_API_URL net (mount VITE_API_URL net username) evs in
  render (component (world p)) = Spinner
  /\ sent (world p) = []
  /\ loads p = [].
Proof.
  intros Hu Hevs.
  assert (Hm : mount VITE_API_URL net username
               = {| world := mounted username; loads := [] |}).
  { unfold mount, fetchAnalysis. simpl. rewrite Hu. reflexivity. }
  assert (Hrun : run VITE_API_URL net (mount VITE_API_URL net username) evs
                 = mount VITE_API_URL net username).
  { rewrite Hm. unfold run. induction evs as [|ev evs IH]; simpl; [reflexivity|].
    simpl in Hevs. apply andb_prop in Hevs as [Hev Hevs].
    rewrite step_without_username; auto.
    destruct (is_route_change ev); [discriminate|reflexivity]. }
  simpl. rewrite Hrun, Hm. repeat split; reflexivity.
Qed.





End LoadFacts.

Lemma dashboard_after_first_load_witness :
  let net0 : Api.Network :=
    fun _ => Some {| Api.ok := false; Api.status := 404;
                     Api.json_body :=
                       Some (JS.JObj [("detail", JS.JStr "User not found")]) |} in
  let p := DashboardPage.mount None net0 (Some "octocat") in
  DashboardPage.render (Dashboard.component (DashboardPage.world p))
  = DashboardPage.Spinner
  /\ DashboardPage.render
       (Dashboard.component
          (DashboardPage.world
             (DashboardPage.step None net0 p (DashboardPage.AnalysisSettles 0))))
     = DashboardPage.AnalysisFailed (Some DashboardPage.failure_message).
Proof.
  intros net0.
  assert (Hne : "octocat" <> "") by discriminate.
  exact (dashboard_after_first_load None net0 "octocat" Hne).
Defined.

Lemma dashboard_without_username_witness :
  let net0 : Api.Network := fun _ => None in
  let p := DashboardPage.run None net0 (DashboardPage.mount None net0 None)
             [DashboardPage.Plan Dashboard.PlanButtonClicked;
              DashboardPage.AnalysisSettles 0] in
  DashboardPage.render (Dashboard.component (DashboardPage.world p))
  = DashboardPage.Spinner
  /\ Dashboard.sent (DashboardPage.world p) = []
  /\ DashboardPage.loads p = [].
Proof.
  intros net0.
  exact (dashboard_without_username None net0 None
           [DashboardPage.Plan Dashboard.PlanButtonClicked;
            DashboardPage.AnalysisSettles 0] eq_refl eq_refl).
Defined.


(** ** RepoDetail: enhancing and copying the README *)

Section RepoPageFacts.
Import JS RepoPage.

Variable VITE_API_URL : option string.
Variable net : Api.Network.

(** On strings the call is the [enhanceREADME] of the API client. *)
Lemma enhanceREADME_on_strings (content repoName : string) :
  enhanceREADME VITE_API_URL (VJson (JStr content)) (VJson (JStr repoName))
  = Api.enhanceREADME VITE_API_URL content repoName.
Proof. reflexivity. Qed.

Lemma enhanceREADME_sends_once (content repoName : value) (log : list Api.Request) :
  snd (enhanceREADME VITE_API_URL content repoName net log)
  = (log ++ [enhance_request VITE_API_URL content repoName])%list.
Proof.
  unfold enhanceREADME, Api.bind, Api.fetch, Api.catch, Api.response_json.
  destruct (net _) as [r|]; [|reflexivity].
  destruct (Api.ok r); simpl; [destruct (Api.json_body r); reflexivity|].
  destruct (Api.json_body r) as [j|]; [|reflexivity].
  destruct j; reflexivity.
Qed.

Lemma page_invariant_mount (username repo : option string) :
  page_invariant (mount VITE_API_URL net username repo).
Proof.
  unfold mount, fetchRepo. simpl.
  destruct (Dashboard.username_missing username || Dashboard.username_missing repo).
  - repeat split; simpl; intros; try discriminate; try lia; congruence.
  - destruct (Api.analyzeRepo _ _ _ _ _).
    repeat split; simpl; intros; try discriminate; try lia; congruence.
Qed.

Lemma length_le_1 {A} (l : list A) (i : nat) (x : A) :
  List.length l <= 1 -> nth_error l i = Some x ->
  l = [x] /\ Dashboard.remove_nth i l = [].
Proof.
  destruct l as [|y [|z l]]; simpl; intros Hl Hn.
  - destruct i; discriminate.
  - destruct i as [|i]; simpl in Hn; [injection Hn as ->; auto|].
    destruct i; discriminate.
  - lia.
Qed.

Lemma page_invariant_step (w : World) (ev : event) :
  page_invariant w -> page_invariant (step VITE_API_URL net w ev).
Proof.
  intros Hinv. pose proof Hinv as (Hbusy & Hlen & Hcopied & Hclip & Hshown).
  destruct ev as [i| |i| |]; simpl.
  - remember (nth_error (loads w) i) as o eqn:Ho. destruct o as [o|]; [|exact Hinv].
    destruct o; exact Hinv.
  - unfold handleEnhanceREADME.
    assert (Hnil : enhancing (component w) = false -> enhancements w = []).
    { intros Hfree. destruct (enhancements w) eqn:E; [reflexivity|].
      assert (Ht : enhancing (component w) = true) by (apply Hbusy; discriminate).
      congruence. }
    remember (repoData (component w)) as data eqn:Hd. destruct data as [d|]; [|exact Hinv].
    remember (negb (json_truthy d)) as falsy eqn:Hf. destruct falsy; [exact Hinv|].
    remember (enhancing (component w)) as busy eqn:Hb. destruct busy; [exact Hinv|].
    simpl. specialize (Hnil eq_refl).
    destruct (enhanceREADME _ _ _ _ _) as [o sent'].
    rewrite Hnil. repeat split; simpl; intros; auto; try discriminate.
  - remember (nth_error (enhancements w) i) as o eqn:Ho. symmetry in Ho.
    destruct o as [o|]; [|exact Hinv].
    destruct (length_le_1 _ _ _ Hlen Ho) as [He Hr].
    unfold page_invariant, handleEnhanceREADME_resume, remove_enhancement,
      with_component.
    destruct o; simpl; rewrite Hr;
      repeat split; simpl; intros; auto; try discriminate; try congruence; try lia.
  - unfold handleCopyREADME.
    remember (enhancedData (component w)) as data eqn:Hd. destruct data as [d|]; [|exact Hinv].
    destruct (negb (json_truthy d)); [exact Hinv|].
    repeat split; simpl; intros; auto; try discriminate; try lia;
      try (apply Hbusy; assumption); rewrite <- Hd; discriminate.
  - unfold timeout_fires. destruct (timers w) as [|n] eqn:Ht; [exact Hinv|].
    repeat split; simpl; intros; auto; try discriminate; try lia;
      try (apply Hbusy; assumption).
Qed.

Lemma page_invariant_run (username repo : option string) (evs : list event) :
  page_invariant (run VITE_API_URL net (mount VITE_API_URL net username repo) evs).
Proof.
  unfold run.
  generalize (page_invariant_mount username repo).
  generalize (mount VITE_API_URL net username repo).
  induction evs as [|ev evs IH]; intros w H; simpl; [exact H|].
  apply IH, page_invariant_step, H.
Qed.

(** X14: on the repository page the flag [enhancing] works as a lock.
    However the clicks and the answers interleave, at most one request of
    [enhanceREADME] is awaited at a time, and [enhancing] is true exactly
    while one is. *)
Theorem enhance_one_at_a_time (username repo : option string) (evs : list event) :
  let w := run VITE_API_URL net (mount VITE_API_URL net username repo) evs in
  List.length (enhancements w) <= 1
  /\ (enhancing (component w) = true <-> enhancements w <> []).
Proof.
  intros w. destruct (page_invariant_run username repo evs) as (H1 & H2 & _).
  split; assumption.
Qed.

(** X15: "Copied!" never sticks and nothing is copied out of nothing:
    whenever [copied] is true a timeout that will reset it is pending;
    the clipboard is written, and the enhanced README is shown, only once
    an enhanced README has been received. *)
Theorem copied_is_reset (username repo : option string) (evs : list event) :
  let w := run VITE_API_URL net (mount VITE_API_URL net username repo) evs in
  (copied (component w) = true -> 0 < timers w)
  /\ (clipboard w <> [] -> enhancedData (component w) <> None)
  /\ (showEnhancedREADME (component w) = true -> enhancedData (component w) <> None).
Proof.
  intros w. destruct (page_invariant_run username repo evs) as (_ & _ & H).
  exact H.
Qed.

End RepoPageFacts.

(** ** RepoDetail: loading the repository, and the requests of the page *)

Section RepoLoadFacts.
Import JS RepoPage.

Variable VITE_API_URL : option string.
Variable net : Api.Network.

(** X16: which return the repository page reaches once [analyzeRepo] has
    settled: it goes on to the markup of the repository, built from the
    body, exactly when the response was ok with a truthy JSON body; it
    shows the failure card with the one fixed message for every failure
    of the call, and the failure card without message for an ok response
    with a falsy body.  Until then the spinner is shown. *)
Theorem repo_page_after_load (username repo : string) :
  username <> "" -> repo <> "" ->
  let w := mount VITE_API_URL net (Some username) (Some repo) in
  render (component w) = Spinner
  /\ render (component (step VITE_API_URL net w (RepoSettles 0))) =
     match net (Api.request_of VITE_API_URL (Api.AnalyzeRepo username repo)) with
     | Some r =>
         if Api.ok r then
           match Api.json_body r with
           | Some j => if json_truthy j then RepositoryMarkup j None else AnalysisFailed None
           | None => AnalysisFailed (Some "Failed to analyze repository")
           end
         else AnalysisFailed (Some "Failed to analyze repository")
     | None => AnalysisFailed (Some "Failed to analyze repository")
     end.
Proof.
  intros Hu Hr w. subst w. unfold mount, fetchRepo. simpl.
  destruct (String.eqb_spec username "") as [->|_]; [contradiction|].
  destruct (String.eqb_spec repo "") as [->|_]; [contradiction|]. simpl.
  change (Api.analyzeRepo VITE_API_URL username repo net [])
    with (Api.perform VITE_API_URL (Api.AnalyzeRepo username repo) net []).
  rewrite perform_unfold.
  unfold Api.bind, Api.fetch, Api.catch, Api.response_json, Api.detail_of,
    Api.ret, Api.throw.
  destruct (net _) as [r|]; simpl; [|split; reflexivity].
  destruct (Api.ok r); simpl.
  - destruct (Api.json_body r) as [j|]; simpl; [|split; reflexivity].
    split; [reflexivity|]. unfold render. simpl. destruct (json_truthy j); reflexivity.
  - destruct (Api.json_body r) as [j|]; simpl; [|split; reflexivity].
    destruct j; simpl; split; reflexivity.
Qed.

(** X17: with the user or the repository missing from the route, nothing
    ever happens on the page: the effect returns at its guard, every
    handler returns at its own, so the page stays as it was first
    rendered, with the spinner and without a single request. *)
Theorem repo_page_without_params (username repo : option string) (evs : list event) :
  Dashboard.username_missing username || Dashboard.username_missing repo = true ->
  let w := run VITE_API_URL net (mount VITE_API_URL net username repo) evs in
  w = {| component := initial username repo; sent := []; loads := [];
         enhancements := []; clipboard := []; timers := 0; console := [] |}
  /\ render (component w) = Spinner.
Proof.
  intros Hm.
  assert (Hmount : mount VITE_API_URL net username repo
                   = {| component := initial username repo; sent := []; loads := [];
                        enhancements := []; clipboard := []; timers := 0;
                        console := [] |}).
  { unfold mount, fetchRepo. simpl. rewrite Hm. reflexivity. }
  simpl. rewrite Hmount. unfold run.
  assert (Hfix : forall ev,
            step VITE_API_URL net
              {| component := initial username repo; sent := []; loads := [];
                 enhancements := []; clipboard := []; timers := 0; console := [] |} ev
            = {| component := initial username repo; sent := []; loads := [];
                 enhancements := []; clipboard := []; timers := 0; console := [] |}).
  { intros [i| |i| |]; simpl; try reflexivity; destruct i; reflexivity. }
  induction evs as [|ev evs IH]; simpl; [split; reflexivity|].
  rewrite Hfix. exact IH.
Qed.

Lemma repo_requests_step (first : Api.Request) (w : World) (ev : event) :
  (exists rest,
     sent w = first :: rest
     /\ List.length (loads w) <= 1
     /\ (loads w <> [] -> repoData (component w) = None)
     /\ forall rq, In rq rest ->
          exists d, repoData (component w) = Some d
                    /\ rq = enhance_request VITE_API_URL
                              (member d "readme_content") (member d "name")) ->
  let w' := step VITE_API_URL net w ev in
  exists rest,
    sent w' = first :: rest
    /\ List.length (loads w') <= 1
    /\ (loads w' <> [] -> repoData (component w') = None)
    /\ forall rq, In rq rest ->
         exists d, repoData (component w') = Some d
                   /\ rq = enhance_request VITE_API_URL
                             (member d "readme_content") (member d "name").
Proof.
  intros (rest & Hs & Hlen & Hpending & Hrest) w'. subst w'.
  destruct ev as [i| |i| |]; simpl.
  - destruct (nth_error (loads w) i) as [o|] eqn:Ho; [|exists rest; auto].
    destruct (length_le_1 _ _ _ Hlen Ho) as [Hl Hrm].
    assert (Hnone : repoData (component w) = None) by (apply Hpending; rewrite Hl; discriminate).
    assert (Hnil : rest = []).
    { destruct rest as [|rq rest']; [reflexivity|].
      destruct (Hrest rq (or_introl eq_refl)) as (d & Hd & _). congruence. }
    subst rest. exists []. destruct o; simpl; rewrite Hrm;
      repeat split; auto; try (simpl; lia); try congruence; intros rq [].
  - unfold handleEnhanceREADME.
    destruct (repoData (component w)) as [d|] eqn:Hd; [|exists rest; rewrite Hd; auto].
    destruct (negb (json_truthy d) || enhancing (component w));
      [exists rest; rewrite Hd; auto|].
    pose proof (enhanceREADME_sends_once VITE_API_URL net
                  (member d "readme_content") (member d "name") (sent w)) as Hsent.
    destruct (enhanceREADME _ _ _ _ _) as [o sent'].
    simpl in *. subst sent'. rewrite Hs.
    exists (rest ++ [enhance_request VITE_API_URL
                       (member d "readme_content") (member d "name")])%list.
    repeat split; auto.
    + intros Hl. specialize (Hpending Hl). congruence.
    + intros rq Hin. apply in_app_or in Hin as [Hin|[<-|[]]].
      * destruct (Hrest rq Hin) as (d' & Hd' & ->).
        injection Hd' as <-. exists d. auto.
      * exists d. auto.
  - destruct (nth_error (enhancements w) i) as [o|]; [|exists rest; auto].
    destruct o; simpl; exists rest; auto.
  - unfold handleCopyREADME.
    destruct (enhancedData (component w)) as [d|]; [|exists rest; auto].
    destruct (negb (json_truthy d)); exists rest; auto.
  - unfold timeout_fires. destruct (timers w); exists rest; auto.
Qed.

(** X18: the requests of a repository page.  The first is the one of
    [analyzeRepo] for the route; every later one is a request of
    [enhanceREADME] that carries [readme_content] and [name] of the
    repository the page holds, so none is sent before a repository was
    loaded. *)
Theorem repo_page_requests (username repo : string) (evs : list event) :
  username <> "" -> repo <> "" ->
  let w := run VITE_API_URL net (mount VITE_API_URL net (Some username) (Some repo)) evs in
  exists rest,
    sent w = Api.request_of VITE_API_URL (Api.AnalyzeRepo username repo) :: rest
    /\ forall rq, In rq rest ->
         exists d, repoData (component w) = Some d
                   /\ rq = enhance_request VITE_API_URL
                             (member d "readme_content") (member d "name").
Proof.
  intros Hu Hr w.
  set (first := Api.request_of VITE_API_URL (Api.AnalyzeRepo username repo)).
  assert (G : exists rest,
             sent w = first :: rest
             /\ List.length (loads w) <= 1
             /\ (loads w <> [] -> repoData (component w) = None)
             /\ forall rq, In rq rest ->
                  exists d, repoData (component w) = Some d
                            /\ rq = enhance_request VITE_API_URL
                                      (member d "readme_content") (member d "name")).
  { subst w. unfold run.
    assert (G0 : exists rest,
               sent (mount VITE_API_URL net (Some username) (Some repo)) = first :: rest
               /\ List.length (loads (mount VITE_API_URL net (Some username) (Some repo))) <= 1
               /\ (loads (mount VITE_API_URL net (Some username) (Some repo)) <> [] ->
                   repoData (component (mount VITE_API_URL net (Some username) (Some repo)))
                   = None)
               /\ forall rq, In rq rest ->
                    exists d,
                      repoData (component (mount VITE_API_URL net (Some username) (Some repo)))
                      = Some d
                      /\ rq = enhance_request VITE_API_URL
                                (member d "readme_content") (member d "name")).
    { unfold mount, fetchRepo. simpl.
      destruct (String.eqb_spec username "") as [->|_]; [contradiction|].
      destruct (String.eqb_spec repo "") as [->|_]; [contradiction|]. simpl.
      pose proof (perform_sends_once VITE_API_URL (Api.AnalyzeRepo username repo) net [])
        as Hsent.
      simpl in Hsent.
      destruct (Api.analyzeRepo VITE_API_URL username repo net []) as [o sent'].
      simpl in *. subst sent'. exists []. repeat split; auto. intros rq []. }
    revert G0. generalize (mount VITE_API_URL net (Some username) (Some repo)).
    induction evs as [|ev evs IH]; intros w0 G0; simpl; [exact G0|].
    apply IH. apply repo_requests_step. exact G0. }
  destruct G as (rest & Hs & _ & _ & Hrest). exists rest. auto.
Qed.

End RepoLoadFacts.

Lemma repo_page_after_load_witness :
  let net0 : Api.Network :=
    fun _ => Some {| Api.ok := true; Api.status := 200;
                     Api.json_body := Some (JS.JObj [("name", JS.JStr "repo")]) |} in
  let w := RepoPage.mount None net0 (Some "octocat") (Some "repo") in
  RepoPage.render (RepoPage.component w) = RepoPage.Spinner
  /\ RepoPage.render (RepoPage.component (RepoPage.step None net0 w (RepoPage.RepoSettles 0)))
     = RepoPage.RepositoryMarkup (JS.JObj [("name", JS.JStr "repo")]) None.
Proof.
  intros net0.
  assert (Hu : "octocat" <> "") by discriminate.
  assert (Hr : "repo" <> "") by discriminate.
  exact (repo_page_after_load None net0 "octocat" "repo" Hu Hr).
Defined.

Lemma repo_page_without_params_witness :
  let net0 : Api.Network := fun _ => None in
  let w := RepoPage.run None net0 (RepoPage.mount None net0 (Some "octocat") None)
             [RepoPage.EnhanceClicked; RepoPage.CopyClicked; RepoPage.RepoSettles 0] in
  w = {| RepoPage.component := RepoPage.initial (Some "octocat") None;
         RepoPage.sent := []; RepoPage.loads := []; RepoPage.enhancements := [];
         RepoPage.clipboard := []; RepoPage.timers := 0; RepoPage.console := [] |}
  /\ RepoPage.render (RepoPage.component w) = RepoPage.Spinner.
Proof.
  intros net0.
  exact (repo_page_without_params None net0 (Some "octocat") None
           [RepoPage.EnhanceClicked; RepoPage.CopyClicked; RepoPage.RepoSettles 0]
           eq_refl).
Defined.

Lemma repo_page_requests_witness :
  let data := JS.JObj [("name", JS.JStr "repo"); ("readme_content", JS.JStr "# repo")] in
  let net0 : Api.Network :=
    fun _ => Some {| Api.ok := true; Api.status := 200; Api.json_body := Some data |} in
  let w := RepoPage.run None net0 (RepoPage.mount None net0 (Some "octocat") (Some "repo"))
             [RepoPage.EnhanceClicked; RepoPage.RepoSettles 0; RepoPage.EnhanceClicked;
              RepoPage.EnhanceClicked; RepoPage.EnhanceSettles 0;
              RepoPage.EnhanceClicked] in
  List.length (RepoPage.sent w) = 3
  /\ exists rest,
       RepoPage.sent w = Api.request_of None (Api.AnalyzeRepo "octocat" "repo") :: rest
       /\ forall rq, In rq rest ->
            exists d, RepoPage.repoData (RepoPage.component w) = Some d
                      /\ rq = RepoPage.enhance_request None
                                (RepoPage.member d "readme_content")
                                (RepoPage.member d "name").
Proof.
  intros data net0.
  assert (Hu : "octocat" <> "") by discriminate.
  assert (Hr : "repo" <> "") by discriminate.
  split; [reflexivity|].
  exact (repo_page_requests None net0 "octocat" "repo"
           [RepoPage.EnhanceClicked; RepoPage.RepoSettles 0; RepoPage.EnhanceClicked;
            RepoPage.EnhanceClicked; RepoPage.EnhanceSettles 0;
            RepoPage.EnhanceClicked] Hu Hr).
Defined.

